(** * x402 payment transport: configuration, permit signing, fetch wiring

    A shallow embedding of the x402 provider extension
    (packages/coding-agent/examples/extensions/custom-provider-x402):

    - [Env]        : src/env.ts        (environment loading and normalisation)
    - [SignPermit] : src/sign-permit.ts (EIP-2612 permit signer)
    - [Cache]      : src/cache.ts      (permit cache)
    - [FetchWrapper] : src/fetch-wrapper.ts (payment-aware fetch)
    - [Index]      : index.ts          (router-config resolver, fetch patcher,
                                        provider registration)
    - [Stream]     : index.ts          (streamX402)

    and of the tick loop of packages/onchain-agent ([TickLoop]:
    src/tick-loop.ts).

    JavaScript values are embedded as follows.  A [string] stands for the
    JavaScript string with the same code units: the strings of this
    development are those whose code units are all below 256 (U+0000 to
    U+00FF), and what is proved is proved for them.  Numbers that the program
    keeps integral are [Z].
    A function that may [throw] returns a [Completion].  Services of the host
    runtime (the URL constructor, the chain client, the clock, the network) are
    parameters of the definitions that call them. *)

From Stdlib Require Import ZArith String Ascii List Bool Lia DecimalString DecimalZ.
From stdpp Require Import base option list gmap strings.

Open Scope string_scope.
Open Scope list_scope.
Open Scope stdpp_scope.
Open Scope Z_scope.

(* ===================================================================== *)
(** * Completions: normal return or a thrown [Error]                      *)
(* ===================================================================== *)

Inductive Completion (A : Type) : Type :=
  | Normal (a : A)
  | Throw (message : string).
Arguments Normal {A} a.
Arguments Throw {A} message.

Definition cbind {A B} (c : Completion A) (k : A -> Completion B) : Completion B :=
  match c with
  | Normal a => k a
  | Throw m => Throw m
  end.

Notation "'let*' x ':=' c 'in' k" := (cbind c (fun x => k))
  (at level 10, x name, c at level 100, k at level 200).

(* ===================================================================== *)
(** * The JavaScript runtime                                              *)
(* ===================================================================== *)

Module JS.

(** ** Characters *)

Definition code (c : ascii) : Z := Z.of_nat (nat_of_ascii c).

Definition is_digit (c : ascii) : bool := (48 <=? code c) && (code c <=? 57).
Definition is_upper (c : ascii) : bool := (65 <=? code c) && (code c <=? 90).
Definition is_lower (c : ascii) : bool := (97 <=? code c) && (code c <=? 122).
Definition is_alpha (c : ascii) : bool := is_upper c || is_lower c.
Definition is_alnum (c : ascii) : bool := is_alpha c || is_digit c.

(** The character class [[0-9a-fA-F]]. *)
Definition is_hex_digit (c : ascii) : bool :=
  is_digit c
  || ((65 <=? code c) && (code c <=? 70))
  || ((97 <=? code c) && (code c <=? 102)).

(** White space and line terminators, which [String.prototype.trim],
    [Number.parseInt] and [BigInt] strip: below U+0100 these are TAB, LF, VT,
    FF, CR, SP and the no-break space U+00A0. *)
Definition is_whitespace (c : ascii) : bool :=
  ((9 <=? code c) && (code c <=? 13)) || (code c =? 32) || (code c =? 160).

Definition to_lower (c : ascii) : ascii :=
  if is_upper c then ascii_of_nat (nat_of_ascii c + 32) else c.

Definition digit_value (c : ascii) : Z := code c - 48.

(** ** Strings *)

Definition chars (s : string) : list ascii := list_ascii_of_string s.
Definition of_chars (l : list ascii) : string := string_of_list_ascii l.

Definition str_length (s : string) : Z := Z.of_nat (String.length s).

Fixpoint drop_while (p : ascii -> bool) (l : list ascii) : list ascii :=
  match l with
  | [] => []
  | c :: l' => if p c then drop_while p l' else l
  end.

Fixpoint take_while (p : ascii -> bool) (l : list ascii) : list ascii :=
  match l with
  | [] => []
  | c :: l' => if p c then c :: take_while p l' else []
  end.

(** [s.trim()] *)
Definition trim (s : string) : string :=
  of_chars (rev (drop_while is_whitespace (rev (drop_while is_whitespace (chars s))))).

(** [s.startsWith(p)] *)
Definition startsWith (p s : string) : bool := String.prefix p s.

(** [s.endsWith(p)] *)
Definition endsWith (p s : string) : bool :=
  String.prefix (of_chars (rev (chars p))) (of_chars (rev (chars s))).

(** [s.slice(n)] for a non-negative [n]. *)
Definition slice_from (n : nat) (s : string) : string :=
  of_chars (drop n (chars s)).

(** [s.split(sep)] for a one-character separator. *)
Fixpoint split_chars (sep : ascii) (cur : list ascii) (l : list ascii) : list string :=
  match l with
  | [] => [of_chars (rev cur)]
  | c :: l' =>
      if Ascii.eqb c sep then of_chars (rev cur) :: split_chars sep [] l'
      else split_chars sep (c :: cur) l'
  end.

Definition split (sep : ascii) (s : string) : list string :=
  split_chars sep [] (chars s).

Definition all_chars (p : ascii -> bool) (s : string) : bool := forallb p (chars s).

(** ** Numbers *)

(** A [Number] holding an integer, an infinity or [NaN].  The program only
    produces numbers by [parseInt], by reading a chain's [id] and by clock
    arithmetic, all of which are integral.  [Int 0] stands for both zeros,
    which the program does not tell apart. *)
Inductive Number : Type :=
  | Int (z : Z)
  | Infinite (negative : bool)
  | NaN.

Definition two53 : Z := 2 ^ 53.

(** Round an integer to the nearest double (ties to even); integers of
    magnitude at least [2^1024 - 2^970] overflow to an infinity. *)
Definition round_to_double (z : Z) : Number :=
  let a := Z.abs z in
  if a <? two53 then Int z
  else
    let s := Z.log2 a - 52 in
    let q := Z.shiftr a s in
    let r := a - Z.shiftl q s in
    let half := Z.shiftl 1 (s - 1) in
    let q' := if r <? half then q
              else if half <? r then q + 1
              else if Z.even q then q else q + 1 in
    let m := Z.shiftl q' s in
    if 2 ^ 1024 <=? m then Infinite (z <? 0)
    else Int (if z <? 0 then - m else m).

Fixpoint digits_value (acc : Z) (ds : list ascii) : Z :=
  match ds with
  | [] => acc
  | d :: ds' => digits_value (10 * acc + digit_value d) ds'
  end.

(** [Number.parseInt(s, 10)]: skip leading white space, read an optional
    sign, then the longest prefix of decimal digits; no digit gives [NaN];
    what follows the digits is ignored.  The value is exact below [2^53];
    above, it is the nearest double (an engine may round after the 20th
    significant digit). *)
Definition parseInt10 (s : string) : Number :=
  let l := drop_while is_whitespace (chars s) in
  let '(neg, l1) :=
    match l with
    | "-"%char :: l' => (true, l')
    | "+"%char :: l' => (false, l')
    | _ => (false, l)
    end in
  let ds := take_while is_digit l1 in
  match ds with
  | [] => NaN
  | _ => let v := digits_value 0 ds in
         match round_to_double v with
         | Int m => Int (if neg then - m else m)
         | Infinite _ => Infinite neg
         | NaN => NaN
         end
  end.

(** Decimal rendering of an integer ([String(n)], [n.toString()] and
    template interpolation of an integral number or a [bigint]). *)
Definition Z_to_string (z : Z) : string := NilZero.string_of_int (Z.to_int z).

(** [Number.isFinite(x)] *)
Definition isFinite (x : Number) : bool :=
  match x with Int _ => true | _ => false end.

(** ** BigInt *)

Definition hex_digit_value (c : ascii) : Z :=
  if is_digit c then code c - 48
  else if is_upper c then code c - 55
  else code c - 87.

Fixpoint radix_value (radix : Z) (acc : Z) (ds : list ascii) : Z :=
  match ds with
  | [] => acc
  | d :: ds' => radix_value radix (radix * acc + hex_digit_value d) ds'
  end.

Definition nonempty_all (p : ascii -> bool) (l : list ascii) : bool :=
  match l with [] => false | _ => forallb p l end.

(** [BigInt(s)] for a string: white space is trimmed, the empty string is
    [0n], then a signed decimal literal or an unsigned [0x], [0o] or [0b]
    literal is read; anything else is a [SyntaxError]. *)
Definition BigInt (s : string) : Completion Z :=
  let l := chars (trim s) in
  let is_octal c := (48 <=? code c) && (code c <=? 55) in
  let is_binary c := (48 <=? code c) && (code c <=? 49) in
  let bad := Throw ("Cannot convert " +:+ s +:+ " to a BigInt") in
  match l with
  | [] => Normal 0
  | "0"%char :: x :: ds =>
      if bool_decide (x ∈ ["x"; "X"]%char) then
        if nonempty_all is_hex_digit ds then Normal (radix_value 16 0 ds) else bad
      else if bool_decide (x ∈ ["o"; "O"]%char) then
        if nonempty_all is_octal ds then Normal (radix_value 8 0 ds) else bad
      else if bool_decide (x ∈ ["b"; "B"]%char) then
        if nonempty_all is_binary ds then Normal (radix_value 2 0 ds) else bad
      else if forallb is_digit l then Normal (digits_value 0 l) else bad
  | "-"%char :: ds =>
      if nonempty_all is_digit ds then Normal (- digits_value 0 ds) else bad
  | "+"%char :: ds =>
      if nonempty_all is_digit ds then Normal (digits_value 0 ds) else bad
  | _ => if forallb is_digit l then Normal (digits_value 0 l) else bad
  end.

End JS.

(* ===================================================================== *)
(** * URLs                                                                *)
(* ===================================================================== *)

Module Url.

(** A parsed URL, with the components of the URL standard's URL record.
    [opaque_path] is set for a URL such as [mailto:x] or [localhost:8080]
    whose path is a single opaque string. *)
Record URL : Type := mkURL {
  scheme : string;
  username : string;
  password : string;
  host : option string;
  port : option Z;
  path : string;
  opaque_path : bool;
  query : option string;
  fragment : option string;
}.

(** The special schemes that carry a tuple origin. *)
Definition has_tuple_origin (sch : string) : bool :=
  bool_decide (sch ∈ ["ftp"; "http"; "https"; "ws"; "wss"]).

Definition serialize_host_port (u : URL) : string :=
  default "" (host u) +:+
    match port u with
    | Some p => ":" +:+ JS.Z_to_string p
    | None => ""
    end.

Section WithParser.

(** [new URL(input)] of the host runtime: [None] when the constructor
    throws a [TypeError]. *)
Variable parse : string -> option URL.

(** The [origin] getter.  A URL of a special scheme other than [file] has
    the origin [scheme://host[:port]]; a [blob:] URL has the origin of the
    URL in its path when that one is [http] or [https]; every other URL
    has an opaque origin, serialised as [null]. *)
Definition tuple_origin (u : URL) : string :=
  scheme u +:+ "://" +:+ serialize_host_port u.

Definition origin (u : URL) : string :=
  if has_tuple_origin (scheme u) then tuple_origin u
  else if String.eqb (scheme u) "blob" then
    match parse (path u) with
    | Some inner =>
        if bool_decide (scheme inner ∈ ["http"; "https"]) then tuple_origin inner
        else "null"
    | None => "null"
    end
  else "null".

(** [new URL("/v1/config", base)]: the base is parsed first; an
    absolute-path reference cannot be resolved against a base with an
    opaque path; otherwise the result keeps the scheme, credentials, host
    and port of the base and replaces path, query and fragment. *)
Definition resolve_absolute_path (reference base : string) : option URL :=
  match parse base with
  | None => None
  | Some b =>
      if opaque_path b then None
      else Some (mkURL (scheme b) (username b) (password b) (host b) (port b)
                       reference false None None)
  end.

End WithParser.

(** [url.toString()] (the [href] serialiser). *)
Definition href (u : URL) : string :=
  scheme u +:+ ":" +:+
    match host u with
    | Some h =>
        "//" +:+
        (if String.eqb (username u) "" && String.eqb (password u) "" then ""
         else username u +:+
              (if String.eqb (password u) "" then "" else ":" +:+ password u) +:+ "@") +:+
        serialize_host_port u
    | None =>
        if negb (opaque_path u) && JS.startsWith "//" (path u) then "/." else ""
    end +:+
    path u +:+
    match query u with Some q => "?" +:+ q | None => "" end +:+
    match fragment u with Some f => "#" +:+ f | None => "" end.

(** ** A reference instance of the URL constructor

    [parse_basic] follows the URL standard's basic parser (without a base
    URL) on the inputs the examples of this development use: URLs of the
    schemes [http], [https], [ws], [wss] and [ftp] without credentials whose
    host is an ASCII name (letters, digits, [-], [.], [_], not ending in a
    digit and without IDNA labels) with an optional decimal port, and URLs
    with an opaque path ([scheme:rest] where [rest] does not start with
    [/]); paths, queries and fragments are kept as written.  It answers
    [None] elsewhere, also where the runtime's constructor succeeds (a
    numeric host, credentials): it stands for the constructor only on the
    inputs of the examples. *)

Definition is_c0_or_space (c : ascii) : bool := JS.code c <=? 32.
Definition is_tab_or_newline (c : ascii) : bool :=
  bool_decide (JS.code c ∈ [9; 10; 13]).
Definition is_scheme_char (c : ascii) : bool :=
  JS.is_alnum c || bool_decide (c ∈ ["+"; "-"; "."]%char).
Definition is_slash (c : ascii) : bool := bool_decide (c ∈ ["/"; "\"]%char).
Definition ends_authority (c : ascii) : bool :=
  bool_decide (c ∈ ["/"; "\"; "?"; "#"]%char).
Definition is_host_char (c : ascii) : bool :=
  JS.is_alnum c || bool_decide (c ∈ ["-"; "."; "_"]%char).

Definition default_port (sch : string) : option Z :=
  if bool_decide (sch ∈ ["http"; "ws"]) then Some 80
  else if bool_decide (sch ∈ ["https"; "wss"]) then Some 443
  else if String.eqb sch "ftp" then Some 21
  else None.

(** Split [l] at the first character satisfying [p]. *)
Definition break_at (p : ascii -> bool) (l : list ascii) : list ascii * list ascii :=
  (JS.take_while (fun c => negb (p c)) l, JS.drop_while (fun c => negb (p c)) l).

(** Path, query and fragment of what follows the authority. *)
Definition path_query_fragment (l : list ascii)
  : string * option string * option string :=
  let '(p, r) := break_at (fun c => bool_decide (c ∈ ["?"; "#"]%char)) l in
  let '(q, f) :=
    match r with
    | "?"%char :: r' =>
        let '(q, r2) := break_at (fun c => Ascii.eqb c "#") r' in
        (Some (JS.of_chars q), match r2 with _ :: f => Some (JS.of_chars f) | [] => None end)
    | _ :: f => (None, Some (JS.of_chars f))
    | [] => (None, None)
    end in
  (JS.of_chars p, q, f).

Definition parse_port (sch : string) (ds : list ascii) : option (option Z) :=
  if negb (forallb JS.is_digit ds) then None
  else match ds with
       | [] => Some None
       | _ => let v := JS.digits_value 0 ds in
              if 65535 <? v then None
              else if bool_decide (default_port sch = Some v) then Some None
              else Some (Some v)
       end.

Definition parse_special (sch : string) (rest : list ascii) : option URL :=
  let r1 := JS.drop_while is_slash rest in
  let '(authority, after) := break_at ends_authority r1 in
  if bool_decide ("@"%char ∈ authority) then None
  else
    let '(h, r2) := break_at (fun c => Ascii.eqb c ":") authority in
    let host_chars := map JS.to_lower h in
    match h with
    | [] => None
    | _ =>
        if negb (forallb is_host_char h) then None
        else if JS.is_digit (List.last h "a"%char) then None
        else
          match parse_port sch (tail r2) with
          | None => None
          | Some prt =>
              let '(p, q, f) := path_query_fragment after in
              Some (mkURL sch "" "" (Some (JS.of_chars host_chars)) prt
                          (if String.eqb p "" then "/" else p) false q f)
          end
    end.

Definition parse_basic (input : string) : option URL :=
  let l0 := rev (JS.drop_while is_c0_or_space
                   (rev (JS.drop_while is_c0_or_space (JS.chars input)))) in
  let l := filter (fun c => negb (is_tab_or_newline c)) l0 in
  match l with
  | c :: _ =>
      if negb (JS.is_alpha c) then None
      else
        let '(sch_chars, r) := (JS.take_while is_scheme_char l,
                                JS.drop_while is_scheme_char l) in
        match r with
        | ":"%char :: rest =>
            let sch := JS.of_chars (map JS.to_lower sch_chars) in
            if has_tuple_origin sch then parse_special sch rest
            else if String.eqb sch "file" then None
            else match rest with
                 | "/"%char :: _ => None
                 | _ => let '(p, q, f) := path_query_fragment rest in
                        Some (mkURL sch "" "" None None p true q f)
                 end
        | _ => None
        end
  | [] => None
  end.

End Url.

(* ===================================================================== *)
(** * src/env.ts                                                          *)
(* ===================================================================== *)

Module Env.

(** [/^0[xX][0-9a-fA-F]{64}$/.test(s)] *)
Definition PRIVATE_KEY_REGEX (s : string) : bool :=
  match JS.chars s with
  | "0"%char :: x :: digits =>
      bool_decide (x ∈ ["x"; "X"]%char)
      && (length digits =? 64)%nat
      && forallb JS.is_hex_digit digits
  | _ => false
  end.

(** [/^[1-9][0-9]*$/.test(s)] *)
Definition POSITIVE_INTEGER_REGEX (s : string) : bool :=
  match JS.chars s with
  | d :: digits =>
      JS.is_digit d && negb (Ascii.eqb d "0") && forallb JS.is_digit digits
  | [] => false
  end.

Definition DEFAULT_ROUTER_URL : string := "http://localhost:8080".
Definition DEFAULT_NETWORK : string := "eip155:8453".
Definition DEFAULT_PERMIT_CAP : string := "10000000".
Definition DEFAULT_PAYMENT_HEADER : string := "PAYMENT-SIGNATURE".
Definition DEFAULT_MODEL_ID : string := "kimi-k2.5".
Definition DEFAULT_MODEL_NAME : string := "Kimi K2.5".

(** [Record<string, string | undefined>]: a key bound to [undefined] reads
    like an absent key. *)
Abbreviation EnvSource := (gmap string string).

Record X402EnvConfig : Type := mkX402EnvConfig {
  privateKey : string;
  routerUrl : string;
  network : string;
  permitCap : string;
  paymentHeader : string;
  modelId : string;
  modelName : string;
}.

Definition readTrimmed (env : EnvSource) (key : string) : option string :=
  match env !! key with
  | None => None
  | Some value =>
      let trimmed := JS.trim value in
      if 0 <? JS.str_length trimmed then Some trimmed else None
  end.

Definition normalizePrivateKey (privateKey : string) : Completion string :=
  if negb (PRIVATE_KEY_REGEX privateKey) then
    Throw "X402_PRIVATE_KEY must be a 0x-prefixed 64-byte hex string"
  else
    Normal (if JS.startsWith "0X" privateKey
            then "0x" +:+ JS.slice_from 2 privateKey
            else privateKey).

Definition normalizePermitCap (permitCap : string) : Completion string :=
  if negb (POSITIVE_INTEGER_REGEX permitCap) then
    Throw "X402_PERMIT_CAP must be a positive integer string"
  else Normal permitCap.

Section WithRuntime.

Variable URL_parse : string -> option Url.URL.

Definition normalizeRouterUrl (routerUrl : string) : Completion string :=
  match URL_parse routerUrl with
  | None => Throw "X402_ROUTER_URL must be a valid URL"
  | Some parsed => Normal (Url.origin URL_parse parsed)
  end.

Definition loadX402Env (env : EnvSource) : Completion X402EnvConfig :=
  match readTrimmed env "X402_PRIVATE_KEY" with
  | None => Throw "X402_PRIVATE_KEY is required"
  | Some privateKeyRaw =>
      let routerUrlRaw := default DEFAULT_ROUTER_URL (readTrimmed env "X402_ROUTER_URL") in
      let permitCapRaw := default DEFAULT_PERMIT_CAP (readTrimmed env "X402_PERMIT_CAP") in
      let network := default DEFAULT_NETWORK (readTrimmed env "X402_NETWORK") in
      let paymentHeader :=
        default DEFAULT_PAYMENT_HEADER (readTrimmed env "X402_PAYMENT_HEADER") in
      let modelId := default DEFAULT_MODEL_ID (readTrimmed env "X402_MODEL_ID") in
      let modelName := default DEFAULT_MODEL_NAME (readTrimmed env "X402_MODEL_NAME") in
      let* privateKey := normalizePrivateKey privateKeyRaw in
      let* routerUrl := normalizeRouterUrl routerUrlRaw in
      let* permitCap := normalizePermitCap permitCapRaw in
      Normal (mkX402EnvConfig privateKey routerUrl network permitCap
                              paymentHeader modelId modelName)
  end.

End WithRuntime.

End Env.


(* ===================================================================== *)
(** * src/types.ts                                                        *)
(* ===================================================================== *)

(** Modelled from the spec: src/types.ts is not among the sources.  The
    fields of the three records are those listed in section 3, which are the
    ones src/sign-permit.ts reads and builds. *)
Record RouterConfig : Type := mkRouterConfig {
  network : string;
  asset : string;
  payTo : string;
  facilitatorSigner : string;
  tokenName : string;
  tokenVersion : string;
  paymentHeader : string;
}.

Record CachedPermit : Type := mkCachedPermit {
  paymentSig : string;
  deadline : Z;
  maxValue : string;
  permit_nonce : string;
  permit_network : string;
  permit_asset : string;
  permit_payTo : string;
}.

Record SignPermitParams : Type := mkSignPermitParams {
  privateKey : string;
  permitCap : string;
  routerConfig : RouterConfig;
}.

(* ===================================================================== *)
(** * src/sign-permit.ts                                                  *)
(* ===================================================================== *)

Module SignPermit.

(** [/^0x[0-9a-fA-F]{64}$/.test(s)] *)
Definition PRIVATE_KEY_REGEX (s : string) : bool :=
  match JS.chars s with
  | "0"%char :: "x"%char :: digits =>
      (length digits =? 64)%nat && forallb JS.is_hex_digit digits
  | _ => false
  end.

(** [/^0x[0-9a-fA-F]{40}$/.test(s)] *)
Definition ADDRESS_REGEX (s : string) : bool :=
  match JS.chars s with
  | "0"%char :: "x"%char :: digits =>
      (length digits =? 40)%nat && forallb JS.is_hex_digit digits
  | _ => false
  end.

Definition DEFAULT_VALIDITY_SECONDS : Z := 3600.

(** The chains imported from [viem/chains]. *)
Inductive Chain : Type := mainnet | base | baseSepolia.

Definition chain_id (c : Chain) : Z :=
  match c with
  | mainnet => 1
  | base => 8453
  | baseSepolia => 84532
  end.

(** The own properties of the table [CHAINS]. *)
Definition CHAINS : gmap string Chain :=
  {[ "eip155:1" := mainnet; "eip155:8453" := base; "eip155:84532" := baseSepolia ]}.

(** The properties that [CHAINS], an object literal, inherits from
    [Object.prototype] (ECMAScript 20.1.3 and B.2.2).  Each holds a function,
    and [__proto__] the prototype itself: none is nullish, none is a chain
    and none has an [id]. *)
Definition OBJECT_PROTOTYPE_KEYS : list string :=
  [ "constructor"; "hasOwnProperty"; "isPrototypeOf"; "propertyIsEnumerable";
    "toLocaleString"; "toString"; "valueOf"; "__proto__";
    "__defineGetter__"; "__defineSetter__"; "__lookupGetter__"; "__lookupSetter__" ].

(** What an expression of type [Chain] holds at run time: a chain, or the
    inherited member of [Object.prototype] that a lookup in [CHAINS] found. *)
Inductive ChainValue : Type :=
  | IsChain (c : Chain)
  | Inherited (key : string).

(** [chain.id] *)
Definition id (chain : ChainValue) : option Z :=
  match chain with
  | IsChain c => Some (chain_id c)
  | Inherited _ => None
  end.

Record PermitDomain : Type := mkPermitDomain {
  domain_name : string;
  domain_version : string;
  domain_chainId : option JS.Number;
  verifyingContract : string;
}.

Record PermitMessage : Type := mkPermitMessage {
  owner : string;
  spender : string;
  value : Z;
  nonce : Z;
  msg_deadline : Z;
}.

Record Authorization : Type := mkAuthorization {
  auth_from : string;
  auth_to : string;
  auth_value : string;
  validBefore : string;
  auth_nonce : string;
}.

Record PaymentPayload : Type := mkPaymentPayload {
  x402Version : Z;
  accepted_scheme : string;
  accepted_network : string;
  accepted_asset : string;
  accepted_payTo : string;
  extra_name : string;
  extra_version : string;
  authorization : Authorization;
  signature : string;
}.

(** What the signer asks of the chain and of the wallet, in order. *)
Inductive ChainCall : Type :=
  | ReadNonces (chain : ChainValue) (asset owner : string)
  | SignTypedData (chain : ChainValue) (domain : PermitDomain) (message : PermitMessage).

(** The services the signer calls: [privateKeyToAccount] (the address of a
    key), [createWalletClient] for an account and a chain, [readContract]
    for [nonces(owner)] on a public client created for the chain,
    [wallet.signTypedData], [JSON.stringify] on a payment payload and
    [Buffer]'s base64 encoder.  The clients are viem's: what they do with a
    [chain] that is no chain is theirs to decide. *)
Record Runtime : Type := mkRuntime {
  privateKeyToAccount : string -> Completion string;
  createWalletClient : string -> ChainValue -> Completion unit;
  readContract : ChainValue -> string -> string -> Completion Z;
  signTypedData : ChainValue -> PermitDomain -> PermitMessage -> Completion string;
  JSON_stringify : PaymentPayload -> string;
  Buffer_base64 : string -> string;
}.

Definition asPrivateKey (value : string) : Completion string :=
  if negb (PRIVATE_KEY_REGEX value) then
    Throw "X402_PRIVATE_KEY must be a 0x-prefixed 64-byte hex string"
  else Normal value.

Definition asAddress (value field : string) : Completion string :=
  if negb (ADDRESS_REGEX value) then
    Throw (field +:+ " must be a 0x-prefixed 20-byte hex address")
  else Normal value.

(** [CHAINS[network] ?? base]: the lookup finds own properties first, then
    those of the prototype. *)
Definition resolveChain (network : string) : ChainValue :=
  match CHAINS !! network with
  | Some chain => IsChain chain
  | None =>
      if bool_decide (network ∈ OBJECT_PROTOTYPE_KEYS) then Inherited network
      else IsChain base
  end.

(** [fallback] is [chain.id], which may be [undefined]; so may the result. *)
Definition resolveChainId (network : string) (fallback : option Z) : option JS.Number :=
  let chainId := JS.split ":" network !! 1%nat in
  let parsed := JS.parseInt10 (default "" chainId) in
  if JS.isFinite parsed then Some parsed else JS.Int <$> fallback.

Section WithRuntime.

Variable rt : Runtime.

Definition fetchPermitNonce (chain : ChainValue) (asset owner : string)
  : list ChainCall * Completion Z :=
  ([ReadNonces chain asset owner], readContract rt chain asset owner).

Definition toBase64 (value : string) : string := Buffer_base64 rt value.

(** [now_ms] is the reading of [Date.now()] taken after the nonce read. *)
Definition signPermitWithViem (now_ms : Z) (params : SignPermitParams)
  : list ChainCall * Completion CachedPermit :=
  let cfg := routerConfig params in
  let chain := resolveChain (network cfg) in
  let chainId := resolveChainId (network cfg) (id chain) in
  match asPrivateKey (privateKey params) with
  | Throw e => ([], Throw e)
  | Normal privateKey' =>
  match asAddress (asset cfg) "routerConfig.asset" with
  | Throw e => ([], Throw e)
  | Normal asset' =>
  match asAddress (facilitatorSigner cfg) "routerConfig.facilitatorSigner" with
  | Throw e => ([], Throw e)
  | Normal facilitatorSigner' =>
  match privateKeyToAccount rt privateKey' with
  | Throw e => ([], Throw e)
  | Normal address =>
  match createWalletClient rt address chain with
  | Throw e => ([], Throw e)
  | Normal _ =>
  match fetchPermitNonce chain asset' address with
  | (calls, Throw e) => (calls, Throw e)
  | (calls, Normal nonce') =>
  let deadline' := now_ms / 1000 + DEFAULT_VALIDITY_SECONDS in
  match JS.BigInt (permitCap params) with
  | Throw e => (calls, Throw e)
  | Normal value' =>
  let domain := mkPermitDomain (tokenName cfg) (tokenVersion cfg) chainId asset' in
  let message := mkPermitMessage address facilitatorSigner' value' nonce' deadline' in
  let calls := calls ++ [SignTypedData chain domain message] in
  match signTypedData rt chain domain message with
  | Throw e => (calls, Throw e)
  | Normal signature' =>
  let paymentPayload :=
    mkPaymentPayload 2 "upto" (network cfg) (asset cfg) (payTo cfg)
      (tokenName cfg) (tokenVersion cfg)
      (mkAuthorization address facilitatorSigner' (permitCap params)
         (JS.Z_to_string deadline') (JS.Z_to_string nonce'))
      signature' in
  (calls,
   Normal (mkCachedPermit (toBase64 (JSON_stringify rt paymentPayload))
             deadline' (permitCap params) (JS.Z_to_string nonce')
             (network cfg) (asset cfg) (payTo cfg)))
  end end end end end end end end.

Definition createPermitSigner := signPermitWithViem.

End WithRuntime.

End SignPermit.

(* ===================================================================== *)
(** * HTTP requests and responses                                         *)
(* ===================================================================== *)

(** A JSON value, as produced by [response.json()]. *)
#[warnings="-register-all"]
Inductive Json : Type :=
  | JNull
  | JBool (b : bool)
  | JNumber (z : Z)
  | JString (s : string)
  | JArray (items : list Json)
  | JObject (fields : list (string * Json)).

Record Request : Type := mkRequest {
  req_url : string;
  req_headers : gmap string string;
}.

Record Response : Type := mkResponse {
  status : Z;
  json : Completion Json;
}.

(** [response.ok] *)
Definition ok (r : Response) : bool := (200 <=? status r) && (status r <=? 299).

(** [headers.set(name, value)]: header names are case-insensitive and kept in
    lower case. *)
Definition header_name (name : string) : string :=
  JS.of_chars (map JS.to_lower (JS.chars name)).

Definition set_header (name value : string) (r : Request) : Request :=
  mkRequest (req_url r) (<[header_name name := value]> (req_headers r)).

Definition get_header (name : string) (r : Request) : option string :=
  req_headers r !! header_name name.

(* ===================================================================== *)
(** * src/cache.ts                                                        *)
(* ===================================================================== *)

Module Cache.

(** Modelled from the spec: src/cache.ts ([PermitCache]) is not among the
    sources.  Section 4.3: the cache maps a key [network:asset:payTo] to a
    signed permit and the spend recorded against it. *)
Record Entry : Type := mkEntry {
  permit : CachedPermit;
  spent : Z;
}.

Abbreviation PermitCache := (gmap string Entry).

(** Modelled from the spec: the permit key of section 3,
    [network:asset:payTo]. *)
Definition permitKey (cfg : RouterConfig) : string :=
  network cfg +:+ ":" +:+ asset cfg +:+ ":" +:+ payTo cfg.

(** Modelled from the spec: the reuse condition of sections 3 and 4.3,
    [now < deadline] and ledger spend [< maxValue]; [maxValue] is a
    base-unit integer held as a string, a cap that is no integer admits no
    reuse. *)
Definition reusable (now : Z) (e : Entry) : bool :=
  (now <? deadline (permit e))
  && match JS.BigInt (maxValue (permit e)) with
     | Normal cap => spent e <? cap
     | Throw _ => false
     end.

Record GetPermitResult : Type := mkGetPermitResult {
  signInvoked : bool;
  outcome : Completion CachedPermit;
  cacheAfter : PermitCache;
}.

(** Modelled from the spec: [getPermit(key, signFn)] of section 4.3.  It
    returns the cached permit if it is reusable; otherwise it invokes
    [signFn], replaces the entry by the fresh permit and resets its ledger
    to zero.  A failure of [signFn] propagates and leaves the cache as it
    was. *)
Definition getPermit (now : Z) (cache : PermitCache) (key : string)
    (signFn : unit -> Completion CachedPermit) : GetPermitResult :=
  match cache !! key with
  | Some e =>
      if reusable now e then mkGetPermitResult false (Normal (permit e)) cache
      else
        match signFn tt with
        | Normal fresh =>
            mkGetPermitResult true (Normal fresh) (<[key := mkEntry fresh 0]> cache)
        | Throw err => mkGetPermitResult true (Throw err) cache
        end
  | None =>
      match signFn tt with
      | Normal fresh =>
          mkGetPermitResult true (Normal fresh) (<[key := mkEntry fresh 0]> cache)
      | Throw err => mkGetPermitResult true (Throw err) cache
      end
  end.

(** Modelled from the spec: [recordSpend(key, amount)] of section 4.3
    increments the ledger of [key]. *)
Definition recordSpend (cache : PermitCache) (key : string) (amount : Z) : PermitCache :=
  alter (fun e => mkEntry (permit e) (spent e + amount)) key cache.

End Cache.

(* ===================================================================== *)
(** * src/fetch-wrapper.ts                                                *)
(* ===================================================================== *)

Module FetchWrapper.

(** What one logical request makes the wrapper do, in order. *)
Inductive Event : Type :=
  | NetworkCall (request : Request)
  | ConfigResolution
  | PermitSigning (params : SignPermitParams).

(** Modelled from the spec: src/fetch-wrapper.ts ([createX402Fetch]) is not
    among the sources.  The configuration of the payment-aware fetch: the
    collaborators and values of section 4.4, and the optional static
    payment-signature override of sections 4.4 and 6 (header name and
    value).  [baseFetch] sees the requests already sent for this logical
    request. *)
Record X402FetchOptions : Type := mkX402FetchOptions {
  baseFetch : list Request -> Request -> Completion Response;
  resolveRouterConfig : unit -> Completion RouterConfig;
  permitCap : string;
  privateKey : string;
  routerUrl : string;
  signer : SignPermitParams -> Completion CachedPermit;
  staticPayment : option (string * string);
}.

Record FetchResult : Type := mkFetchResult {
  events : list Event;
  response : Completion Response;
  permitCache : Cache.PermitCache;
}.

Definition paymentRequired (r : Response) : bool :=
  bool_decide (status r ∈ [401; 402]).

(** Modelled from the spec: the payment-aware fetch of section 4.4.

    Static mode: the header is attached up front, the request is issued
    once and its response returned.

    Signed-permit mode: the request is issued unmodified; on a 401 or 402
    the router config is resolved, a permit is obtained from the cache
    (signing on a miss), the request is cloned with the payment header set
    to the permit's [paymentSig] and re-issued once; the second response is
    returned as it is.  When config resolution or permit acquisition fails
    the original rejection is returned (section 7). *)
Definition x402Fetch (options : X402FetchOptions) (now : Z)
    (cache : Cache.PermitCache) (request : Request) : FetchResult :=
  match staticPayment options with
  | Some (name, value) =>
      let request' := set_header name value request in
      mkFetchResult [NetworkCall request'] (baseFetch options [] request') cache
  | None =>
      match baseFetch options [] request with
      | Throw err => mkFetchResult [NetworkCall request] (Throw err) cache
      | Normal first =>
          if negb (paymentRequired first) then
            mkFetchResult [NetworkCall request] (Normal first) cache
          else
            match resolveRouterConfig options tt with
            | Throw _ =>
                mkFetchResult [NetworkCall request; ConfigResolution] (Normal first) cache
            | Normal cfg =>
                let params := mkSignPermitParams (privateKey options) (permitCap options) cfg in
                let got := Cache.getPermit now cache (Cache.permitKey cfg)
                             (fun _ => signer options params) in
                let signing := if Cache.signInvoked got then [PermitSigning params] else [] in
                match Cache.outcome got with
                | Throw _ =>
                    mkFetchResult ([NetworkCall request; ConfigResolution] ++ signing)
                      (Normal first) (Cache.cacheAfter got)
                | Normal permit =>
                    let retry := set_header (paymentHeader cfg) (paymentSig permit) request in
                    mkFetchResult
                      ([NetworkCall request; ConfigResolution] ++ signing ++ [NetworkCall retry])
                      (baseFetch options [request] retry)
                      (Cache.cacheAfter got)
                end
            end
      end
  end.

Definition response_value (r : FetchResult) : option Response :=
  match response r with Normal v => Some v | Throw _ => None end.

Definition networkCalls (r : FetchResult) : list Request :=
  omap (fun e => match e with NetworkCall q => Some q | _ => None end) (events r).

End FetchWrapper.

(* ===================================================================== *)
(** * index.ts                                                            *)
(* ===================================================================== *)

Module Index.

Definition X402_API : string := "x402-openai-completions".

Definition withV1Path (origin : string) : string :=
  if JS.endsWith "/" origin then origin +:+ "v1" else origin +:+ "/v1".

(** ** Router config resolver *)

(** The defaults handed to [normalizeRouterConfig]. *)
Record RouterDefaults : Type := mkRouterDefaults {
  default_network : string;
  default_paymentHeader : string;
}.

(** A [RouterConfig] object on the heap: [obj_id] is its identity. *)
Record ConfigObject : Type := mkConfigObject {
  obj_id : nat;
  obj_value : RouterConfig;
}.

Record ResolverOptions : Type := mkResolverOptions {
  opt_routerUrl : string;
  opt_network : string;
  opt_paymentHeader : string;
}.

(** The variables the resolver closes over. *)
Record ResolverState : Type := mkResolverState {
  cached : option ConfigObject;
  cachedAtMs : Z;
}.

Definition resolver_init : ResolverState := mkResolverState None 0.

Definition CACHE_TTL_MS : Z := 30000.

Record ResolveResult : Type := mkResolveResult {
  fetched : list string;
  returned : Completion ConfigObject;
  stateAfter : ResolverState;
  nextIdAfter : nat;
}.

Definition returned_config (r : ResolveResult) : option ConfigObject :=
  match returned r with Normal c => Some c | Throw _ => None end.

Section Resolver.

(** [new URL(input)] of the runtime. *)
Variable URL_parse : string -> option Url.URL.

(** [normalizeRouterConfig] of src/router-config.ts, which is not among
    the sources; every call builds a new object. *)
Variable normalizeRouterConfig : Json -> RouterDefaults -> RouterConfig.

Variable options : ResolverOptions.

Definition defaults : RouterDefaults :=
  mkRouterDefaults (opt_network options) (opt_paymentHeader options).

(** The body of the resolver past the cache check.  [now] is the reading
    of [Date.now()] taken on entry, [baseFetch] answers the request of
    this call (a rejected promise is a [Throw]) and [next_id] is the
    identity of the next object to be allocated. *)
Definition refresh (baseFetch : string -> Completion Response) (now : Z)
    (st : ResolverState) (next_id : nat) : ResolveResult :=
  let fallback := mkConfigObject next_id (normalizeRouterConfig (JObject []) defaults) in
  let next_id := S next_id in
  match Url.resolve_absolute_path URL_parse "/v1/config" (opt_routerUrl options +:+ "/") with
  | None => mkResolveResult [] (Throw "Invalid URL") st next_id
  | Some configUrl =>
      let url := Url.href configUrl in
      match baseFetch url with
      | Throw _ =>
          mkResolveResult [url] (Normal fallback)
            (mkResolverState (Some fallback) now) next_id
      | Normal response =>
          if negb (ok response) then
            mkResolveResult [url] (Normal fallback)
              (mkResolverState (Some fallback) now) next_id
          else
            match json response with
            | Throw _ =>
                mkResolveResult [url] (Normal fallback)
                  (mkResolverState (Some fallback) now) next_id
            | Normal data =>
                let config := mkConfigObject next_id (normalizeRouterConfig data defaults) in
                mkResolveResult [url] (Normal config)
                  (mkResolverState (Some config) now) (S next_id)
            end
      end
  end.

(** One call of the function returned by [createRouterConfigResolver]. *)
Definition resolve (baseFetch : string -> Completion Response) (now : Z)
    (st : ResolverState) (next_id : nat) : ResolveResult :=
  match cached st with
  | Some c =>
      if now - cachedAtMs st <? CACHE_TTL_MS
      then mkResolveResult [] (Normal c) st next_id
      else refresh baseFetch now st next_id
  | None => refresh baseFetch now st next_id
  end.

End Resolver.

(** ** Fetch patcher *)

Section Patcher.

(** Fetch implementations, compared by identity. *)
Context {Fetch : Type} `{EqDecision Fetch}.

Variable fetchImpl : Fetch.

(** [globalThis.fetch], the variables [createFetchPatcher] closes over,
    and the [released] flag of every [release] closure handed out so far
    (a closure is named by its position). *)
Record PatcherWorld : Type := mkPatcherWorld {
  globalFetch : Fetch;
  activeStreams : Z;
  originalFetch : option Fetch;
  released : list bool;
}.

Definition patcher_init (g : Fetch) : PatcherWorld := mkPatcherWorld g 0 None [].

Definition acquire (w : PatcherWorld) : nat * PatcherWorld :=
  let '(g, orig) :=
    if activeStreams w =? 0
    then (fetchImpl, Some (globalFetch w))
    else (globalFetch w, originalFetch w) in
  (length (released w),
   mkPatcherWorld g (activeStreams w + 1) orig (released w ++ [false])).

(** Calling the closure returned by the [handle]-th [acquire]. *)
Definition release (handle : nat) (w : PatcherWorld) : PatcherWorld :=
  match released w !! handle with
  | Some false =>
      let released' := <[handle := true]> (released w) in
      let active := activeStreams w - 1 in
      match originalFetch w with
      | Some orig =>
          if active =? 0 then
            mkPatcherWorld
              (if bool_decide (globalFetch w = fetchImpl) then orig else globalFetch w)
              active None released'
          else mkPatcherWorld (globalFetch w) active (originalFetch w) released'
      | None => mkPatcherWorld (globalFetch w) active (originalFetch w) released'
      end
  | _ => w
  end.

(** Another component assigning [globalThis.fetch]. *)
Definition assignGlobal (g : Fetch) (w : PatcherWorld) : PatcherWorld :=
  mkPatcherWorld g (activeStreams w) (originalFetch w) (released w).

Inductive Op : Type :=
  | Acquire
  | Release (handle : nat)
  | AssignGlobal (g : Fetch).

Definition step (w : PatcherWorld) (op : Op) : PatcherWorld :=
  match op with
  | Acquire => snd (acquire w)
  | Release h => release h w
  | AssignGlobal g => assignGlobal g w
  end.

Definition run (w : PatcherWorld) (ops : list Op) : PatcherWorld :=
  fold_left step ops w.

(** Closures handed out and not yet called. *)
Definition unreleased (flags : list bool) : Z :=
  Z.of_nat (length (filter (fun b => b = false) flags)).

Definition live (w : PatcherWorld) : Z := unreleased (released w).

(** The count is the number of closures not yet called, and an original
    fetch is held exactly while the count is positive. *)
Definition consistent (w : PatcherWorld) : Prop :=
  activeStreams w = live w
  /\ (originalFetch w = None <-> activeStreams w = 0).

End Patcher.

(** ** Provider registration *)

Record ModelConfig : Type := mkModelConfig {
  model_id : string;
  model_name : string;
  reasoning : bool;
  contextWindow : Z;
  maxTokens : Z;
}.

Record ProviderConfig : Type := mkProviderConfig {
  baseUrl : string;
  apiKey : string;
  api : string;
  headers : option (list (string * string));
  models : list ModelConfig;
}.

(** What [registerX402Provider] builds, in order. *)
Inductive Construction : Type :=
  | PermitSignerCreated
  | PermitCacheCreated
  | RouterConfigResolverCreated (options : ResolverOptions)
  | X402FetchCreated (permitCap privateKey routerUrl : string)
  | FetchPatcherCreated
  | ProviderRegistered (name : string) (config : ProviderConfig).

(** [envSource.X402_PAYMENT_SIGNATURE?.trim()] *)
Definition staticPaymentSignature (envSource : Env.EnvSource) : option string :=
  JS.trim <$> envSource !! "X402_PAYMENT_SIGNATURE".

(** The [headers] of the registration. *)
Definition staticHeaders (env : Env.X402EnvConfig) (envSource : Env.EnvSource)
  : option (list (string * string)) :=
  match staticPaymentSignature envSource with
  | Some sig =>
      if negb (String.eqb sig "") && (0 <? JS.str_length sig)
      then Some [(Env.paymentHeader env, sig)]
      else None
  | None => None
  end.

(** The provider object handed to [pi.registerProvider]. *)
Definition providerConfig (env : Env.X402EnvConfig) (envSource : Env.EnvSource)
  : ProviderConfig :=
  mkProviderConfig (withV1Path (Env.routerUrl env)) "x402-placeholder" X402_API
    (staticHeaders env envSource)
    [mkModelConfig (Env.modelId env) (Env.modelName env) true 200000 32768].

Definition registerX402Provider (URL_parse : string -> option Url.URL)
    (envSource : Env.EnvSource) : list Construction * Completion unit :=
  match Env.loadX402Env URL_parse envSource with
  | Throw err => ([], Throw err)
  | Normal env =>
      ([ PermitSignerCreated;
         PermitCacheCreated;
         RouterConfigResolverCreated
           (mkResolverOptions (Env.routerUrl env) (Env.network env) (Env.paymentHeader env));
         X402FetchCreated (Env.permitCap env) (Env.privateKey env) (Env.routerUrl env);
         FetchPatcherCreated;
         ProviderRegistered "x402" (providerConfig env envSource) ],
       Normal tt)
  end.

End Index.

(* ===================================================================== *)
(** * Fixtures of the test suite                                          *)
(* ===================================================================== *)

Module Fixtures.

(** [`0x${"1".repeat(64)}`] *)
Definition VALID_PRIVATE_KEY : string :=
  "0x1111111111111111111111111111111111111111111111111111111111111111".

Definition env_cap_minus_one : Env.EnvSource :=
  {[ "X402_PRIVATE_KEY" := VALID_PRIVATE_KEY; "X402_PERMIT_CAP" := "-1" ]}.

Definition env_cap_blank : Env.EnvSource :=
  {[ "X402_PRIVATE_KEY" := VALID_PRIVATE_KEY; "X402_PERMIT_CAP" := "" ]}.

Definition env_cap_only : Env.EnvSource :=
  {[ "X402_PERMIT_CAP" := "0" ]}.

Definition env_static : Env.EnvSource :=
  {[ "X402_PRIVATE_KEY" := VALID_PRIVATE_KEY;
     "X402_PAYMENT_SIGNATURE" := "signed-payment-payload" ]}.

Definition env_router_without_scheme : Env.EnvSource :=
  {[ "X402_PRIVATE_KEY" := VALID_PRIVATE_KEY; "X402_ROUTER_URL" := "localhost:8080" ]}.

(** The router config and the mocks of sign-permit.test.ts. *)
Definition routerConfig : RouterConfig :=
  mkRouterConfig "eip155:8453" "0x833589fCD6eDb6E08f4c7C32D4f71b54bdA02913"
    "0x2222222222222222222222222222222222222222"
    "0x2222222222222222222222222222222222222222"
    "USD Coin" "2" "PAYMENT-SIGNATURE".

Definition signParams : SignPermitParams :=
  mkSignPermitParams VALID_PRIVATE_KEY "10000000" routerConfig.

Definition runtime : SignPermit.Runtime :=
  SignPermit.mkRuntime
    (fun _ => Normal "0x1111111111111111111111111111111111111111")
    (fun _ chain =>
       match chain with
       | SignPermit.IsChain _ => Normal tt
       | SignPermit.Inherited _ =>
           Throw "Cannot read properties of undefined (reading 'default')"
       end)
    (fun _ _ _ => Normal 7)
    (fun _ _ _ => Normal "0xsigned")
    (fun p => "x402:" +:+ SignPermit.signature p)
    (fun s => s).

(** The string held by a field of a JSON object, if any. *)
Definition stringField (name : string) (data : Json) : option string :=
  match data with
  | JObject fields =>
      match List.find (fun '(k, _) => String.eqb k name) fields with
      | Some (_, JString s) => Some s
      | _ => None
      end
  | _ => None
  end.

(** Modelled from the spec: [normalizeRouterConfig] of
    src/router-config.ts is not among the sources.  Section 6: any shape is
    normalised, a missing field falls back to the configured default;
    section 4.1: the fallback has placeholder asset and recipient. *)
Definition normalizeRouterConfig (data : Json) (d : Index.RouterDefaults) : RouterConfig :=
  mkRouterConfig
    (default (Index.default_network d) (stringField "network" data))
    (default "" (stringField "asset" data))
    (default "" (stringField "payTo" data))
    (default "" (stringField "facilitatorSigner" data))
    (default "" (stringField "tokenName" data))
    (default "" (stringField "tokenVersion" data))
    (default (Index.default_paymentHeader d) (stringField "paymentHeader" data)).

Definition resolverOptions : Index.ResolverOptions :=
  Index.mkResolverOptions "http://localhost:8080" "eip155:8453" "PAYMENT-SIGNATURE".

Definition routerConfigJson : Json :=
  JObject [("network", JString "eip155:8453");
           ("asset", JString "0x833589fCD6eDb6E08f4c7C32D4f71b54bdA02913");
           ("payTo", JString "0x2222222222222222222222222222222222222222");
           ("facilitatorSigner", JString "0x2222222222222222222222222222222222222222");
           ("tokenName", JString "USD Coin");
           ("tokenVersion", JString "2")].

(** A router that serves its config, and one that is down. *)
Definition routerUp (url : string) : Completion Response :=
  Normal (mkResponse 200 (Normal routerConfigJson)).
Definition routerDown (url : string) : Completion Response :=
  Normal (mkResponse 503 (Throw "Unexpected token")).

(** A router that answers every request with 402. *)
Definition alwaysPaymentRequired (history : list Request) (request : Request)
  : Completion Response :=
  Normal (mkResponse 402 (Throw "Unexpected end of JSON input")).

(** A router that answers 402 until the request carries a payment header. *)
Definition paidOnRetry (history : list Request) (request : Request)
  : Completion Response :=
  match get_header "PAYMENT-SIGNATURE" request with
  | Some _ => Normal (mkResponse 200 (Normal (JObject [])))
  | None => Normal (mkResponse 402 (Throw "Unexpected end of JSON input"))
  end.

Definition signer (params : SignPermitParams) : Completion CachedPermit :=
  snd (SignPermit.signPermitWithViem runtime 1700000000123 params).

(** The same runtime with the chain's node out of reach: the nonce read
    fails. *)
Definition runtimeNodeDown : SignPermit.Runtime :=
  SignPermit.mkRuntime
    (SignPermit.privateKeyToAccount runtime)
    (SignPermit.createWalletClient runtime)
    (fun _ _ _ => Throw "HTTP request failed.")
    (SignPermit.signTypedData runtime)
    (SignPermit.JSON_stringify runtime)
    (SignPermit.Buffer_base64 runtime).

Definition signerNodeDown (params : SignPermitParams) : Completion CachedPermit :=
  snd (SignPermit.signPermitWithViem runtimeNodeDown 1700000000123 params).

Definition chatUrl : string := "http://localhost:8080/v1/chat/completions".

(** A permit signed at 1700000000, valid until 1700003600, cap 10000000. *)
Definition cachedPermit : CachedPermit :=
  mkCachedPermit "x402:0xsigned" 1700003600 "10000000" "7" "eip155:8453"
    "0x833589fCD6eDb6E08f4c7C32D4f71b54bdA02913"
    "0x2222222222222222222222222222222222222222".

Definition permitKey : string := Cache.permitKey routerConfig.

End Fixtures.

(* ===================================================================== *)
(** * index.ts: streamX402                                                *)
(* ===================================================================== *)

Module Stream.

(** A JS object as the list of its properties, in insertion order. *)
Definition setProperty {V : Type} (key : string) (v : V) (obj : list (string * V))
  : list (string * V) :=
  if existsb (fun '(k, _) => String.eqb k key) obj
  then map (fun '(k, old) => if String.eqb k key then (k, v) else (k, old)) obj
  else obj ++ [(key, v)].

Definition getProperty {V : Type} (key : string) (obj : list (string * V)) : option V :=
  snd <$> List.find (fun '(k, _) => String.eqb k key) obj.

Section WithClient.

(** The fields of a model and of the stream options that [streamX402] does
    not look at, and the context. *)
Context {ModelRest OptionsRest Context AssistantStream : Type}.
Context {Fetch : Type} `{EqDecision Fetch}.

Record Model : Type := mkModel {
  api : string;
  model_rest : ModelRest;
}.

(** [SimpleStreamOptions]: a header value may be [null]. *)
Record SimpleStreamOptions : Type := mkSimpleStreamOptions {
  apiKey : option string;
  headers : option (list (string * option string));
  options_rest : OptionsRest;
}.

(** What [streamSimpleOpenAICompletions] is called with.  [call_options] is
    [None] when [streamX402] got no options: the object built for the client
    then has only [apiKey] and [headers]. *)
Record ClientCall : Type := mkClientCall {
  call_model : Model;
  call_context : Context;
  call_apiKey : string;
  call_headers : list (string * option string);
  call_options : option OptionsRest;
}.

(** [streamSimpleOpenAICompletions] of the client library: it returns a
    stream or throws. *)
Variable streamSimpleOpenAICompletions : ClientCall -> Completion AssistantStream.

Variable fetchImpl : Fetch.

Definition clientCall (model : Model) (context : Context)
    (options : option SimpleStreamOptions) : ClientCall :=
  let openAIModel := mkModel "openai-completions" (model_rest model) in
  let headers :=
    setProperty "Authorization" None (default [] (options ≫= headers)) in
  mkClientCall openAIModel context
    (default "x402-placeholder" (options ≫= apiKey)) headers
    (options_rest <$> options).

(** [streamX402]: the stream returned, with the position of the [release]
    closure that its settling will call, or the error thrown after the
    closure was called. *)
Definition streamX402 (model : Model) (context : Context)
    (options : option SimpleStreamOptions) (w : Index.PatcherWorld (Fetch := Fetch))
  : Completion (AssistantStream * nat) * Index.PatcherWorld (Fetch := Fetch) :=
  let '(releaseFetch, w1) := Index.acquire fetchImpl w in
  match streamSimpleOpenAICompletions (clientCall model context options) with
  | Normal stream => (Normal (stream, releaseFetch), w1)
  | Throw error => (Throw error, Index.release fetchImpl releaseFetch w1)
  end.

(** The callback registered with [stream.result().finally]. *)
Definition streamSettled (releaseFetch : nat) (w : Index.PatcherWorld (Fetch := Fetch))
  : Index.PatcherWorld (Fetch := Fetch) :=
  Index.release fetchImpl releaseFetch w.

(** Streams being started and streams settling, in any order. *)
Inductive Event : Type :=
  | Started (model : Model) (context : Context) (options : option SimpleStreamOptions)
  | Settled (releaseFetch : nat).

Definition step (w : Index.PatcherWorld (Fetch := Fetch)) (e : Event)
  : Index.PatcherWorld (Fetch := Fetch) :=
  match e with
  | Started model context options => snd (streamX402 model context options w)
  | Settled releaseFetch => streamSettled releaseFetch w
  end.

Definition run (w : Index.PatcherWorld (Fetch := Fetch)) (events : list Event)
  : Index.PatcherWorld (Fetch := Fetch) :=
  fold_left step events w.

End WithClient.

End Stream.

(* ===================================================================== *)
(** * packages/onchain-agent/src/tick-loop.ts                             *)
(* ===================================================================== *)

Module TickLoop.

(** The variables [createTickLoop] closes over, the interval timers of the
    runtime and what the loop has done to its callbacks.  [timer] is the
    interval the variable holds, [intervals] are the intervals set and not
    cleared, [next_interval] names the next one [setInterval] returns;
    [onTickCalls] counts the calls of [onTick], [caught] the runs of the
    [catch] block, [onErrorCalls] are the errors handed to [onError]. *)
Record State : Type := mkState {
  timer : option nat;
  intervals : list nat;
  next_interval : nat;
  running : bool;
  ticking : bool;
  count : Z;
  onTickCalls : Z;
  caught : Z;
  onErrorCalls : list string;
}.

Definition init : State := mkState None [] 0 false false 0 0 0 [].

(** A call that a callback makes on the loop while it runs. *)
Inductive Call : Type :=
  | CallStart
  | CallStop.

(** One run of [options.onTick] up to its first [await] or its return: the
    calls it makes on the loop, and how it ends.  It throws (the error, with
    the calls that [onError] makes on the loop when handed it), or it hands
    back a promise or a value, which settles later. *)
Record OnTickRun : Type := mkOnTickRun {
  sync_calls : list Call;
  sync_throws : option (string * list Call);
}.

(** [running = b] *)
Definition setRunning (b : bool) (st : State) : State :=
  mkState (timer st) (intervals st) (next_interval st) b (ticking st) (count st)
    (onTickCalls st) (caught st) (onErrorCalls st).

(** [timer = setInterval(tick, options.intervalMs)] *)
Definition setInterval (st : State) : State :=
  mkState (Some (next_interval st)) (intervals st ++ [next_interval st])
    (S (next_interval st)) (running st) (ticking st) (count st)
    (onTickCalls st) (caught st) (onErrorCalls st).

Definition stop (st : State) : State :=
  mkState None
    (match timer st with
     | Some id => filter (fun i => i <> id) (intervals st)
     | None => intervals st
     end)
    (next_interval st) false (ticking st) (count st)
    (onTickCalls st) (caught st) (onErrorCalls st).

(** [start()] and [stop()] as a callback calls them.  [onTick] and
    [onError] run inside [tick], between [ticking = true] and
    [ticking = false]: the [tick()] of such a [start()] returns at once. *)
Definition call (c : Call) (st : State) : State :=
  match c with
  | CallStart => if running st then st else setInterval (setRunning true st)
  | CallStop => stop st
  end.

Definition calls (cs : list Call) (st : State) : State :=
  fold_left (fun st c => call c st) cs st.

Section WithOptions.

(** Whether [options.onError] is given. *)
Variable hasOnError : bool.

(** The rest of [tick()] once [onTick] has resolved: [count++], then the
    [finally] block. *)
Definition tickResolved (st : State) : State :=
  mkState (timer st) (intervals st) (next_interval st) (running st) false
    (count st + 1) (onTickCalls st) (caught st) (onErrorCalls st).

(** The rest of [tick()] once [onTick] has thrown or rejected: the [catch]
    block, in which [onError] runs when it is given, then the [finally]
    block. *)
Definition tickRejected (err : string) (onError : list Call) (st : State) : State :=
  let st1 :=
    mkState (timer st) (intervals st) (next_interval st) (running st) (ticking st)
      (count st) (onTickCalls st) (caught st + 1)
      (if hasOnError then onErrorCalls st ++ [err] else onErrorCalls st) in
  let st2 := if hasOnError then calls onError st1 else st1 in
  mkState (timer st2) (intervals st2) (next_interval st2) (running st2) false
    (count st2) (onTickCalls st2) (caught st2) (onErrorCalls st2).

(** [tick()] up to the point where it returns to its caller: skipped while
    a tick is in flight; otherwise [onTick] is called and runs up to its
    first [await], and when it throws the rest of [tick()] follows. *)
Definition tick (run : OnTickRun) (st : State) : State :=
  if ticking st then st
  else
    let st1 :=
      mkState (timer st) (intervals st) (next_interval st) (running st) true
        (count st) (onTickCalls st + 1) (caught st) (onErrorCalls st) in
    let st2 := calls (sync_calls run) st1 in
    match sync_throws run with
    | Some (err, onError) => tickRejected err onError st2
    | None => st2
    end.

Definition start (run : OnTickRun) (st : State) : State :=
  if running st then st
  else setInterval (tick run (setRunning true st)).

(** Calls of the loop's methods from outside, an interval firing (only one
    that is set fires) and the pending [onTick] settling.  [run] tells how
    the call of [onTick] goes, if the event leads to one. *)
Inductive Event : Type :=
  | Start (run : OnTickRun)
  | Stop
  | TimerFires (id : nat) (run : OnTickRun)
  | OnTickResolves
  | OnTickRejects (err : string) (onError : list Call).

Definition step (st : State) (e : Event) : State :=
  match e with
  | Start run => start run st
  | Stop => stop st
  | TimerFires id run => if bool_decide (id ∈ intervals st) then tick run st else st
  | OnTickResolves => if ticking st then tickResolved st else st
  | OnTickRejects err onError => if ticking st then tickRejected err onError st else st
  end.

Definition run (st : State) (events : list Event) : State := fold_left step events st.


Definition isCallStart (c : Call) : bool :=
  match c with CallStart => true | CallStop => false end.



(** An event that can make the loop run again: [start()] called from
    outside, or from [onError] when the pending [onTick] rejects. *)
Definition restarts (e : Event) : bool :=
  match e with
  | Start _ => true
  | OnTickRejects _ onError => hasOnError && existsb isCallStart onError
  | _ => false
  end.

End WithOptions.

End TickLoop.

(* ===================================================================== *)
(** * Properties of src/env.ts                                            *)
(* ===================================================================== *)

Lemma register_aborts_on_load_failure URL_parse envSource err :
  Env.loadX402Env URL_parse envSource = Throw err ->
  Index.registerX402Provider URL_parse envSource = ([], Throw err).
Proof. unfold Index.registerX402Provider. intros ->. reflexivity. Qed.

Lemma normalizePrivateKey_ok pk :
  Env.PRIVATE_KEY_REGEX pk = true -> exists pk', Env.normalizePrivateKey pk = Normal pk'.
Proof. unfold Env.normalizePrivateKey. intros ->. simpl. eauto. Qed.

Lemma normalizeRouterUrl_ok URL_parse raw u :
  URL_parse raw = Some u ->
  Env.normalizeRouterUrl URL_parse raw = Normal (Url.origin URL_parse u).
Proof. unfold Env.normalizeRouterUrl. intros ->. reflexivity. Qed.

(** With a well-formed private key, a router URL that parses and no permit
    cap read from the environment, loading succeeds with the default cap and
    registration builds the signer. *)
Lemma default_cap_loads URL_parse (envSource : Env.EnvSource) pk u :
  Env.readTrimmed envSource "X402_PRIVATE_KEY" = Some pk ->
  Env.PRIVATE_KEY_REGEX pk = true ->
  URL_parse (default Env.DEFAULT_ROUTER_URL (Env.readTrimmed envSource "X402_ROUTER_URL"))
    = Some u ->
  Env.readTrimmed envSource "X402_PERMIT_CAP" = None ->
  exists env,
    Env.loadX402Env URL_parse envSource = Normal env
    /\ Env.permitCap env = Env.DEFAULT_PERMIT_CAP
    /\ Index.PermitSignerCreated ∈ fst (Index.registerX402Provider URL_parse envSource).
Proof.
  intros Hpk Hre Hurl Hcap.
  assert (Hload : exists env, Env.loadX402Env URL_parse envSource = Normal env
                              /\ Env.permitCap env = Env.DEFAULT_PERMIT_CAP).
  { unfold Env.loadX402Env. rewrite Hpk, Hcap. simpl.
    destruct (normalizePrivateKey_ok pk Hre) as [pk' ->]. simpl.
    rewrite (normalizeRouterUrl_ok _ _ _ Hurl). simpl. eauto. }
  destruct Hload as (env & Hload & Hdefault). exists env.
  split; [exact Hload|]. split; [exact Hdefault|].
  unfold Index.registerX402Provider. rewrite Hload. apply list_elem_of_here.
Qed.

(** C9, as amended.  With a well-formed private key and a router URL that
    parses, a permit cap that, once trimmed, is not empty and does not match
    [^[1-9][0-9]*$] makes configuration loading fail with the permit-cap
    error, and registration aborts before the signer or anything else is
    built; ["-1"] and ["0"] are such caps.  A cap that is empty or blank reads
    as unset: in place of the rejected cap it makes loading succeed with the
    default cap, and the signer is built. *)
Theorem permit_cap_rejected URL_parse (envSource : Env.EnvSource) pk cap u :
  Env.readTrimmed envSource "X402_PRIVATE_KEY" = Some pk ->
  Env.PRIVATE_KEY_REGEX pk = true ->
  URL_parse (default Env.DEFAULT_ROUTER_URL (Env.readTrimmed envSource "X402_ROUTER_URL"))
    = Some u ->
  Env.readTrimmed envSource "X402_PERMIT_CAP" = Some cap ->
  Env.POSITIVE_INTEGER_REGEX cap = false ->
  Env.loadX402Env URL_parse envSource
  = Throw "X402_PERMIT_CAP must be a positive integer string"
  /\ Index.registerX402Provider URL_parse envSource
     = ([], Throw "X402_PERMIT_CAP must be a positive integer string")
  /\ Env.POSITIVE_INTEGER_REGEX "-1" = false
  /\ Env.POSITIVE_INTEGER_REGEX "0" = false
  /\ (forall blank, JS.trim blank = "" ->
        let envSource' : Env.EnvSource := <["X402_PERMIT_CAP" := blank]> envSource in
        Env.readTrimmed envSource' "X402_PERMIT_CAP" = None
        /\ exists env,
             Env.loadX402Env URL_parse envSource' = Normal env
             /\ Env.permitCap env = Env.DEFAULT_PERMIT_CAP
             /\ Index.PermitSignerCreated
                  ∈ fst (Index.registerX402Provider URL_parse envSource')).
Proof.
  intros Hpk Hre Hurl Hcap Hbad.
  assert (Hload : Env.loadX402Env URL_parse envSource
                  = Throw "X402_PERMIT_CAP must be a positive integer string").
  { unfold Env.loadX402Env. rewrite Hpk, Hcap. simpl.
    destruct (normalizePrivateKey_ok pk Hre) as [pk' ->]. simpl.
    rewrite (normalizeRouterUrl_ok _ _ _ Hurl). simpl.
    unfold Env.normalizePermitCap. rewrite Hbad. reflexivity. }
  split; [exact Hload|].
  split; [apply register_aborts_on_load_failure, Hload|].
  split; [reflexivity|]. split; [reflexivity|].
  intros blank Hblank envSource'.
  assert (Hnone : Env.readTrimmed envSource' "X402_PERMIT_CAP" = None).
  { unfold Env.readTrimmed, envSource'. rewrite lookup_insert_eq, Hblank. reflexivity. }
  assert (Hother : forall key, key <> "X402_PERMIT_CAP" ->
            Env.readTrimmed envSource' key = Env.readTrimmed envSource key).
  { intros key Hkey. unfold Env.readTrimmed, envSource'.
    rewrite lookup_insert_ne by congruence. reflexivity. }
  split; [exact Hnone|].
  apply (default_cap_loads URL_parse envSource' pk u); [| exact Hre | | exact Hnone].
  - rewrite Hother by discriminate. exact Hpk.
  - rewrite Hother by discriminate. exact Hurl.
Qed.

Lemma permit_cap_rejected_witness :
  Env.loadX402Env Url.parse_basic Fixtures.env_cap_minus_one
  = Throw "X402_PERMIT_CAP must be a positive integer string"
  /\ Index.registerX402Provider Url.parse_basic Fixtures.env_cap_minus_one
     = ([], Throw "X402_PERMIT_CAP must be a positive integer string").
Proof.
  pose proof (permit_cap_rejected Url.parse_basic Fixtures.env_cap_minus_one
                Fixtures.VALID_PRIVATE_KEY "-1"
                (Url.mkURL "http" "" "" (Some "localhost") (Some 8080) "/" false None None))
    as H.
  destruct H as (H1 & H2 & _); [vm_compute; reflexivity ..|].
  split; assumption.
Defined.

(** C9, the claim as stated fails: with the cap set to the empty string
    loading succeeds with the default cap and the signer is built; with the
    private key missing the error is the private key's, not the cap's. *)
Lemma permit_cap_claim_fails :
  (exists env,
      Env.loadX402Env Url.parse_basic Fixtures.env_cap_blank = Normal env
      /\ Env.permitCap env = Env.DEFAULT_PERMIT_CAP
      /\ Index.PermitSignerCreated
           ∈ fst (Index.registerX402Provider Url.parse_basic Fixtures.env_cap_blank))
  /\ Fixtures.env_cap_blank !! "X402_PERMIT_CAP" = Some ""
  /\ Env.POSITIVE_INTEGER_REGEX "" = false
  /\ Env.loadX402Env Url.parse_basic Fixtures.env_cap_only
     = Throw "X402_PRIVATE_KEY is required"
  /\ Env.loadX402Env Url.parse_basic Fixtures.env_cap_only
     <> Throw "X402_PERMIT_CAP must be a positive integer string".
Proof.
  split.
  { eexists. split; [vm_compute; reflexivity|]. split; [reflexivity|].
    vm_compute. apply list_elem_of_here. }
  split; [vm_compute; reflexivity|]. split; [reflexivity|].
  split; [vm_compute; reflexivity|]. vm_compute. discriminate.
Qed.

Lemma tuple_origin_components URL_parse (u u' : Url.URL) :
  Url.has_tuple_origin (Url.scheme u) = true ->
  Url.scheme u = Url.scheme u' -> Url.host u = Url.host u' -> Url.port u = Url.port u' ->
  Url.origin URL_parse u = Url.origin URL_parse u'.
Proof.
  intros Hs Es Eh Ep. unfold Url.origin. rewrite <- Es, Hs.
  unfold Url.tuple_origin, Url.serialize_host_port. rewrite Es, Eh, Ep. reflexivity.
Qed.

(** The router URL is replaced by the [origin] of the parsed URL, and a
    value that does not parse fails with the router-URL error.  For an
    [http], [https], [ws], [wss] or [ftp] URL the origin is
    [scheme://host[:port]], whatever the credentials, path, query and fragment
    are; the registered [baseUrl] is built from it.  A URL of another scheme
    that is not [blob] has the origin [null]. *)
Lemma router_url_is_origin URL_parse (raw : string) :
  (URL_parse raw = None ->
     Env.normalizeRouterUrl URL_parse raw = Throw "X402_ROUTER_URL must be a valid URL")
  /\ (forall u, URL_parse raw = Some u ->
        Env.normalizeRouterUrl URL_parse raw = Normal (Url.origin URL_parse u)
        /\ (Url.has_tuple_origin (Url.scheme u) = true ->
              Url.origin URL_parse u
              = Url.scheme u +:+ "://" +:+ default "" (Url.host u) +:+
                  match Url.port u with Some p => ":" +:+ JS.Z_to_string p | None => "" end)
        /\ (Url.has_tuple_origin (Url.scheme u) = true ->
            forall u', Url.scheme u' = Url.scheme u -> Url.host u' = Url.host u ->
                       Url.port u' = Url.port u ->
                       Url.origin URL_parse u' = Url.origin URL_parse u)
        /\ (Url.has_tuple_origin (Url.scheme u) = false -> Url.scheme u <> "blob" ->
              Url.origin URL_parse u = "null"))
  /\ (forall envSource env,
        Env.readTrimmed envSource "X402_ROUTER_URL" = Some raw ->
        Env.loadX402Env URL_parse envSource = Normal env ->
        exists u, URL_parse raw = Some u
                  /\ Env.routerUrl env = Url.origin URL_parse u
                  /\ Index.baseUrl (Index.providerConfig env envSource)
                     = Index.withV1Path (Url.origin URL_parse u)).
Proof.
  split; [|split].
  - unfold Env.normalizeRouterUrl. intros ->. reflexivity.
  - intros u Hu. split; [apply normalizeRouterUrl_ok, Hu|]. split; [|split].
    + intros Hs. unfold Url.origin. rewrite Hs. reflexivity.
    + intros Hs u' Es Eh Ep. symmetry.
      apply tuple_origin_components; [exact Hs| symmetry; assumption ..].
    + intros Hs Hb. unfold Url.origin. rewrite Hs.
      destruct (String.eqb_spec (Url.scheme u) "blob"); [contradiction|reflexivity].
  - intros envSource env Hraw. unfold Env.loadX402Env. rewrite Hraw.
    destruct (Env.readTrimmed envSource "X402_PRIVATE_KEY"); [|discriminate].
    simpl. destruct (Env.normalizePrivateKey s); [|discriminate]. simpl.
    unfold Env.normalizeRouterUrl.
    destruct (URL_parse raw) as [u|]; [|discriminate]. simpl.
    destruct (Env.normalizePermitCap _); [|discriminate]. simpl.
    intros [= <-]. exists u. repeat split.
Qed.

(** C10, at the router URL [localhost:8080]: it has no scheme of its own,
    yet it parses as a URL of scheme [localhost] with an opaque path, so the
    check of the router URL lets it through; loading succeeds with the
    router URL [null] and the registered base URL is [null/v1]; neither is
    built from a scheme and a host, and the config endpoint cannot be
    resolved against it. *)
Lemma router_url_claim_fails :
  Url.parse_basic "localhost:8080"
    = Some (Url.mkURL "localhost" "" "" None None "8080" true None None)
  /\ Env.normalizeRouterUrl Url.parse_basic "localhost:8080" = Normal "null"
  /\ (exists env,
        Env.loadX402Env Url.parse_basic Fixtures.env_router_without_scheme = Normal env
        /\ Env.routerUrl env = "null"
        /\ Index.baseUrl (Index.providerConfig env Fixtures.env_router_without_scheme)
           = "null/v1")
  /\ Url.resolve_absolute_path Url.parse_basic "/v1/config" "null/" = None.
Proof.
  split; [vm_compute; reflexivity|]. split; [vm_compute; reflexivity|].
  split; [|vm_compute; reflexivity].
  eexists. split; [vm_compute; reflexivity|]. split; reflexivity.
Qed.

(* ===================================================================== *)
(** * Properties of src/sign-permit.ts                                    *)
(* ===================================================================== *)

Lemma chars_of_chars l : JS.chars (JS.of_chars l) = l.
Proof. apply list_ascii_of_string_of_list_ascii. Qed.

Lemma split_chars_until sep : forall tail cur,
  exists more,
    JS.split_chars sep cur tail
    = JS.of_chars (rev cur ++ JS.take_while (fun c => negb (Ascii.eqb c sep)) tail) :: more.
Proof.
  induction tail as [|c tail IH]; intros cur; simpl.
  - exists []. rewrite app_nil_r. reflexivity.
  - destruct (Ascii.eqb c sep); simpl.
    + eexists. rewrite app_nil_r. reflexivity.
    + destruct (IH (c :: cur)) as [more ->]. exists more.
      simpl. rewrite <- app_assoc. reflexivity.
Qed.

Lemma split_chars_second sep pre tail : forall cur,
  forallb (fun c => negb (Ascii.eqb c sep)) pre = true ->
  JS.split_chars sep cur (pre ++ sep :: tail) !! 1%nat
  = Some (JS.of_chars (JS.take_while (fun c => negb (Ascii.eqb c sep)) tail)).
Proof.
  induction pre as [|c pre IH]; intros cur Hpre; simpl in *.
  - rewrite Ascii.eqb_refl. simpl.
    destruct (split_chars_until sep tail []) as [more ->]. reflexivity.
  - apply andb_prop in Hpre as [Hc Hpre].
    destruct (Ascii.eqb c sep); [discriminate|]. apply IH, Hpre.
Qed.

Lemma split_chars_single sep pre : forall cur,
  forallb (fun c => negb (Ascii.eqb c sep)) pre = true ->
  JS.split_chars sep cur pre = [JS.of_chars (rev cur ++ pre)].
Proof.
  induction pre as [|c pre IH]; intros cur Hpre; simpl in *.
  - rewrite app_nil_r. reflexivity.
  - apply andb_prop in Hpre as [Hc Hpre].
    destruct (Ascii.eqb c sep); [discriminate|].
    rewrite IH by exact Hpre. simpl. rewrite <- app_assoc. reflexivity.
Qed.

Lemma digit_value_range c : JS.is_digit c = true -> 0 <= JS.digit_value c <= 9.
Proof. unfold JS.is_digit, JS.digit_value. lia. Qed.

Lemma digits_value_nonneg ds : forall acc,
  0 <= acc -> forallb JS.is_digit ds = true -> 0 <= JS.digits_value acc ds.
Proof.
  induction ds as [|d ds IH]; intros acc Hacc Hds; simpl in *; [exact Hacc|].
  apply andb_prop in Hds as [Hd Hds]. apply IH; [|exact Hds].
  pose proof (digit_value_range d Hd). lia.
Qed.

Lemma take_while_digits ds rest :
  forallb JS.is_digit ds = true ->
  JS.is_digit (List.hd "x"%char rest) = false ->
  JS.take_while JS.is_digit (ds ++ rest) = ds.
Proof.
  intros Hds Hrest. induction ds as [|d ds IH].
  - destruct rest as [|c rest]; [reflexivity|].
    cbn [List.hd] in Hrest. cbn [app JS.take_while]. rewrite Hrest. reflexivity.
  - cbn [forallb] in Hds. apply andb_prop in Hds as [Hd Hds].
    cbn [app JS.take_while]. rewrite Hd, IH by exact Hds. reflexivity.
Qed.

Lemma digit_not_special c :
  JS.is_digit c = true ->
  JS.is_whitespace c = false /\ c <> "-"%char /\ c <> "+"%char /\ c <> ":"%char.
Proof.
  intros Hc. unfold JS.is_digit, JS.is_whitespace in *.
  repeat split; try lia; intros ->; vm_compute in Hc; discriminate.
Qed.

Lemma round_to_double_exact v : 0 <= v < JS.two53 -> JS.round_to_double v = JS.Int v.
Proof.
  intros Hv. unfold JS.round_to_double.
  rewrite Z.abs_eq by lia.
  destruct (Z.ltb_spec v JS.two53); [reflexivity|lia].
Qed.

Lemma no_sign c (l : list ascii) :
  c <> "-"%char -> c <> "+"%char ->
  match c :: l with
  | "-"%char :: l' => (true, l')
  | "+"%char :: l' => (false, l')
  | _ => (false, c :: l)
  end = (false, c :: l).
Proof. intros Hm Hp. destruct c as [[] [] [] [] [] [] [] []]; try reflexivity; congruence. Qed.

Lemma hd_take_while_not_digit (p : ascii -> bool) rest :
  JS.is_digit (List.hd "x"%char rest) = false ->
  JS.is_digit (List.hd "x"%char (JS.take_while p rest)) = false.
Proof.
  destruct rest as [|c rest]; simpl; [reflexivity|].
  destruct (p c); simpl; [tauto|reflexivity].
Qed.

(** C4, at two networks that are not supported.  For [eip155:1x] the
    chain falls back to Base, whose id is 8453, and the suffix [1x] is no
    number; yet the chain id is 1, the value of the leading digit, and a
    permit is signed for the domain of chain 1 on Base's clients.  For
    [constructor] the lookup finds the member that [CHAINS] inherits from
    [Object.prototype]: the chain is not Base, it has no id, and the chain
    id is undefined. *)
Lemma chain_id_claim_fails :
  SignPermit.resolveChain "eip155:1x" = SignPermit.IsChain SignPermit.base
  /\ SignPermit.chain_id SignPermit.base = 8453
  /\ JS.all_chars JS.is_digit "1x" = false
  /\ SignPermit.resolveChainId "eip155:1x"
       (SignPermit.id (SignPermit.resolveChain "eip155:1x")) = Some (JS.Int 1)
  /\ (exists read domain message signed,
        SignPermit.signPermitWithViem Fixtures.runtime 1700000000123
          (mkSignPermitParams Fixtures.VALID_PRIVATE_KEY "10000000"
             (mkRouterConfig "eip155:1x" (asset Fixtures.routerConfig)
                (payTo Fixtures.routerConfig) (facilitatorSigner Fixtures.routerConfig)
                "USD Coin" "2" "PAYMENT-SIGNATURE"))
        = ([read; SignPermit.SignTypedData (SignPermit.IsChain SignPermit.base) domain message],
           Normal signed)
        /\ SignPermit.domain_chainId domain = Some (JS.Int 1))
  /\ SignPermit.resolveChain "constructor" = SignPermit.Inherited "constructor"
  /\ SignPermit.id (SignPermit.resolveChain "constructor") = None
  /\ SignPermit.resolveChainId "constructor"
       (SignPermit.id (SignPermit.resolveChain "constructor")) = None.
Proof.
  do 4 (split; [vm_compute; reflexivity|]).
  split; [|repeat split; vm_compute; reflexivity].
  do 4 eexists. split; [vm_compute; reflexivity|]. reflexivity.
Qed.

(** C7.  The signer checks the private key, then the asset address, then the
    facilitator address; the first mismatch makes it throw an error that
    names the field, before the chain is read or anything is signed.  When
    the three match, the checks return their arguments and an error of the
    signer is one thrown by the account derivation, the creation of the
    wallet client, the nonce read, the conversion of the cap or the
    signing. *)
Theorem signer_validates_inputs (rt : SignPermit.Runtime) (now_ms : Z)
    (params : SignPermitParams) :
  let cfg := routerConfig params in
  let result := SignPermit.signPermitWithViem rt now_ms params in
  (SignPermit.PRIVATE_KEY_REGEX (privateKey params) = false ->
     result = ([], Throw "X402_PRIVATE_KEY must be a 0x-prefixed 64-byte hex string"))
  /\ (SignPermit.PRIVATE_KEY_REGEX (privateKey params) = true ->
      SignPermit.ADDRESS_REGEX (asset cfg) = false ->
      result = ([], Throw ("routerConfig.asset" +:+ " must be a 0x-prefixed 20-byte hex address")))
  /\ (SignPermit.PRIVATE_KEY_REGEX (privateKey params) = true ->
      SignPermit.ADDRESS_REGEX (asset cfg) = true ->
      SignPermit.ADDRESS_REGEX (facilitatorSigner cfg) = false ->
      result = ([], Throw ("routerConfig.facilitatorSigner"
                             +:+ " must be a 0x-prefixed 20-byte hex address")))
  /\ (SignPermit.PRIVATE_KEY_REGEX (privateKey params) = true ->
      SignPermit.ADDRESS_REGEX (asset cfg) = true ->
      SignPermit.ADDRESS_REGEX (facilitatorSigner cfg) = true ->
      SignPermit.asPrivateKey (privateKey params) = Normal (privateKey params)
      /\ SignPermit.asAddress (asset cfg) "routerConfig.asset" = Normal (asset cfg)
      /\ SignPermit.asAddress (facilitatorSigner cfg) "routerConfig.facilitatorSigner"
         = Normal (facilitatorSigner cfg)
      /\ forall calls err, result = (calls, Throw err) ->
           SignPermit.privateKeyToAccount rt (privateKey params) = Throw err
           \/ (exists chain owner,
                 SignPermit.createWalletClient rt owner chain = Throw err)
           \/ (exists chain owner,
                 SignPermit.readContract rt chain (asset cfg) owner = Throw err)
           \/ JS.BigInt (permitCap params) = Throw err
           \/ (exists chain domain message,
                 SignPermit.signTypedData rt chain domain message = Throw err)).
Proof.
  intros cfg result. subst result. unfold SignPermit.signPermitWithViem.
  fold cfg. unfold SignPermit.asPrivateKey, SignPermit.asAddress.
  split; [|split; [|split]].
  - intros ->. reflexivity.
  - intros -> ->. reflexivity.
  - intros -> -> ->. reflexivity.
  - intros -> -> ->. cbn [negb]. do 3 (split; [reflexivity|]).
    intros calls err.
    destruct (SignPermit.privateKeyToAccount rt (privateKey params)) as [owner|e] eqn:Hacc.
    2:{ intros [= _ <-]. left. reflexivity. }
    destruct (SignPermit.createWalletClient rt owner _) as [[]|e] eqn:Hwallet.
    2:{ intros [= _ <-]. right. left. eauto. }
    unfold SignPermit.fetchPermitNonce.
    destruct (SignPermit.readContract rt _ (asset cfg) owner) as [n|e] eqn:Hread.
    2:{ intros [= _ <-]. right. right. left. eauto. }
    destruct (JS.BigInt (permitCap params)) as [v|e] eqn:Hcap.
    2:{ intros [= _ <-]. right. right. right. left. reflexivity. }
    destruct (SignPermit.signTypedData rt _ _ _) as [sg|e] eqn:Hsign.
    { discriminate. }
    intros [= _ <-]. right. right. right. right. eauto.
Qed.

(** With inputs that pass the checks, a cap that is an integer and services
    that answer, the signer returns a permit. *)
Lemma signer_succeeds (rt : SignPermit.Runtime) (now_ms : Z) (params : SignPermitParams)
    owner n v sg :
  let cfg := routerConfig params in
  let chain := SignPermit.resolveChain (network cfg) in
  SignPermit.PRIVATE_KEY_REGEX (privateKey params) = true ->
  SignPermit.ADDRESS_REGEX (asset cfg) = true ->
  SignPermit.ADDRESS_REGEX (facilitatorSigner cfg) = true ->
  SignPermit.privateKeyToAccount rt (privateKey params) = Normal owner ->
  SignPermit.createWalletClient rt owner chain = Normal tt ->
  SignPermit.readContract rt chain (asset cfg) owner = Normal n ->
  JS.BigInt (permitCap params) = Normal v ->
  (forall domain message, SignPermit.signTypedData rt chain domain message = Normal sg) ->
  exists calls signed,
    SignPermit.signPermitWithViem rt now_ms params = (calls, Normal signed).
Proof.
  intros cfg chain Hpk Ha Hf Hacc Hwallet Hread Hcap Hsign. subst cfg chain.
  unfold SignPermit.signPermitWithViem, SignPermit.asPrivateKey, SignPermit.asAddress,
    SignPermit.fetchPermitNonce.
  rewrite Hpk, Ha, Hf. cbn [negb]. rewrite Hacc, Hwallet, Hread, Hcap, Hsign. eauto.
Qed.

(** C8.  A permit returned by the signer has [deadline] the unix time of the
    clock reading plus 3600 seconds, [maxValue] the cap it was given, [nonce]
    the decimal rendering of the value read from [nonces(owner)] on the asset
    contract for the address derived from the key, and the network, asset and
    recipient of the router config; the chain was read once and one typed
    message was signed. *)
Theorem signed_permit_fields (rt : SignPermit.Runtime) (now_ms : Z)
    (params : SignPermitParams) calls (signed : CachedPermit) :
  SignPermit.signPermitWithViem rt now_ms params = (calls, Normal signed) ->
  let cfg := routerConfig params in
  let chain := SignPermit.resolveChain (network cfg) in
  exists owner nonce sig,
    SignPermit.privateKeyToAccount rt (privateKey params) = Normal owner
    /\ SignPermit.readContract rt chain (asset cfg) owner = Normal nonce
    /\ deadline signed = now_ms / 1000 + 3600
    /\ maxValue signed = permitCap params
    /\ permit_nonce signed = JS.Z_to_string nonce
    /\ permit_network signed = network cfg
    /\ permit_asset signed = asset cfg
    /\ permit_payTo signed = payTo cfg
    /\ calls = [SignPermit.ReadNonces chain (asset cfg) owner; sig]
    /\ exists domain message,
         sig = SignPermit.SignTypedData chain domain message
         /\ SignPermit.spender message = facilitatorSigner cfg
         /\ SignPermit.msg_deadline message = deadline signed
         /\ SignPermit.nonce message = nonce
         /\ JS.BigInt (permitCap params) = Normal (SignPermit.value message).
Proof.
  intros Hsign cfg chain. subst cfg chain.
  unfold SignPermit.signPermitWithViem, SignPermit.asPrivateKey, SignPermit.asAddress,
    SignPermit.fetchPermitNonce in Hsign.
  destruct (SignPermit.PRIVATE_KEY_REGEX _); [|discriminate].
  destruct (SignPermit.ADDRESS_REGEX (asset _)); [|discriminate].
  destruct (SignPermit.ADDRESS_REGEX (facilitatorSigner _)); [|discriminate].
  cbn [negb] in Hsign.
  destruct (SignPermit.privateKeyToAccount rt _) as [owner|]; [|discriminate].
  destruct (SignPermit.createWalletClient rt owner _); [|discriminate].
  destruct (SignPermit.readContract rt _ _ owner) as [n|] eqn:Hread; [|discriminate].
  destruct (JS.BigInt _) as [v|] eqn:Hcap; [|discriminate].
  destruct (SignPermit.signTypedData rt _ _ _) as [sg|]; [|discriminate].
  injection Hsign as <- <-.
  exists owner, n. eexists. repeat split; try reflexivity; try eassumption.
  do 2 eexists. repeat split.
Qed.

Lemma signed_permit_fields_witness :
  exists calls signed,
    SignPermit.signPermitWithViem Fixtures.runtime 1700000000123 Fixtures.signParams
    = (calls, Normal signed)
    /\ deadline signed = 1700003600
    /\ maxValue signed = "10000000"
    /\ permit_nonce signed = "7".
Proof.
  do 2 eexists. split; [vm_compute; reflexivity|].
  pose proof (signed_permit_fields Fixtures.runtime 1700000000123 Fixtures.signParams _ _
                eq_refl) as (owner & n & sg & _ & Hn & Hd & Hm & Hnonce & _).
  split; [exact Hd|]. split; [exact Hm|]. reflexivity.
Defined.

(* ===================================================================== *)
(** * Properties of index.ts: the fetch patcher                           *)
(* ===================================================================== *)

Section PatcherProperties.

Context {Fetch : Type} `{EqDecision Fetch}.
Variable fetchImpl : Fetch.

Implicit Types (w : Index.PatcherWorld (Fetch := Fetch)) (flags : list bool).

Lemma unreleased_snoc flags :
  Index.unreleased (flags ++ [false]) = Index.unreleased flags + 1.
Proof.
  unfold Index.unreleased. rewrite filter_app, length_app. simpl. lia.
Qed.

Lemma unreleased_nonneg flags : 0 <= Index.unreleased flags.
Proof. unfold Index.unreleased. lia. Qed.

Lemma unreleased_mark flags : forall h,
  flags !! h = Some false ->
  Index.unreleased (<[h := true]> flags) = Index.unreleased flags - 1.
Proof.
  unfold Index.unreleased. induction flags as [|b flags IH]; intros h Hh; [discriminate|].
  destruct h as [|h]; simpl in Hh.
  - injection Hh as ->.
    change (<[0%nat := true]> (false :: flags)) with (true :: flags).
    rewrite (filter_cons_False _ true) by discriminate.
    rewrite (filter_cons_True _ false) by reflexivity. cbn [length]. lia.
  - change (<[S h := true]> (b :: flags)) with (b :: <[h := true]> flags).
    specialize (IH h Hh).
    destruct b;
      [rewrite !filter_cons_False by discriminate
      |rewrite !filter_cons_True by reflexivity; cbn [length]]; lia.
Qed.

Lemma consistent_init (g : Fetch) : Index.consistent (Index.patcher_init g).
Proof. split; [reflexivity|]. simpl. tauto. Qed.

Lemma consistent_step w op :
  Index.consistent w -> Index.consistent (Index.step fetchImpl w op).
Proof.
  intros [Hc Ho]. pose proof (unreleased_nonneg (Index.released w)) as Hn.
  unfold Index.live in *.
  destruct op as [|h|g]; simpl.
  - unfold Index.acquire, Index.consistent, Index.live.
    destruct (Z.eqb_spec (Index.activeStreams w) 0) as [E|E]; simpl;
      rewrite unreleased_snoc; (split; [lia|]).
    + split; [discriminate|lia].
    + split; [intros Hnone; apply Ho in Hnone; contradiction|lia].
  - unfold Index.release.
    destruct (Index.released w !! h) as [[|]|] eqn:Hh; try (split; assumption).
    pose proof (unreleased_mark _ _ Hh) as Hm.
    destruct (Index.originalFetch w) as [orig|] eqn:Horig.
    + destruct (Z.eqb_spec (Index.activeStreams w - 1) 0) as [E|E];
        unfold Index.consistent, Index.live; simpl; rewrite Hm.
      * split; [lia|]. tauto.
      * split; [lia|]. split; [discriminate|contradiction].
    + assert (Index.activeStreams w = 0) by (apply Ho; reflexivity).
      assert (0 <= Index.unreleased (<[h := true]> (Index.released w)))
        by apply unreleased_nonneg.
      lia.
  - split; assumption.
Qed.

Lemma consistent_run ops : forall w,
  Index.consistent w -> Index.consistent (Index.run fetchImpl w ops).
Proof.
  induction ops as [|op ops IH]; intros w Hw; [exact Hw|].
  apply IH, consistent_step, Hw.
Qed.

Lemma release_not_live h w :
  Index.released w !! h <> Some false -> Index.release fetchImpl h w = w.
Proof.
  unfold Index.release. destruct (Index.released w !! h) as [[|]|]; congruence.
Qed.

Lemma release_marks h w :
  Index.released w !! h = Some false ->
  Index.released (Index.release fetchImpl h w) !! h = Some true.
Proof.
  intros Hh. pose proof (lookup_lt_Some _ _ _ Hh) as Hlt.
  unfold Index.release. rewrite Hh.
  destruct (Index.originalFetch w); [destruct (Index.activeStreams w - 1 =? 0)|];
    simpl; apply list_lookup_insert_eq, Hlt.
Qed.

Lemma release_twice h w :
  Index.release fetchImpl h (Index.release fetchImpl h w) = Index.release fetchImpl h w.
Proof.
  destruct (decide (Index.released w !! h = Some false)) as [Hh|Hh].
  - apply release_not_live. rewrite (release_marks _ _ Hh). discriminate.
  - rewrite (release_not_live _ _ Hh). apply release_not_live, Hh.
Qed.

Lemma release_live h w orig :
  Index.released w !! h = Some false ->
  Index.originalFetch w = Some orig ->
  Index.release fetchImpl h w
  = if Index.activeStreams w - 1 =? 0 then
      Index.mkPatcherWorld
        (if bool_decide (Index.globalFetch w = fetchImpl) then orig else Index.globalFetch w)
        (Index.activeStreams w - 1) None (<[h := true]> (Index.released w))
    else
      Index.mkPatcherWorld (Index.globalFetch w) (Index.activeStreams w - 1)
        (Some orig) (<[h := true]> (Index.released w)).
Proof. intros Hh Ho. unfold Index.release. rewrite Hh, Ho. reflexivity. Qed.

Lemma live_has_original h w :
  Index.consistent w -> Index.released w !! h = Some false ->
  exists orig, Index.originalFetch w = Some orig.
Proof.
  intros [Hc Ho] Hh. destruct (Index.originalFetch w) as [orig|]; [eauto|].
  assert (Index.activeStreams w = 0) by (apply Ho; reflexivity).
  pose proof (unreleased_mark _ _ Hh).
  pose proof (unreleased_nonneg (<[h := true]> (Index.released w))).
  unfold Index.live in Hc. lia.
Qed.

(** C5.  In every state the patcher reaches from its initial one, under any
    sequence of [acquire] calls, calls of the closures they returned and
    assignments of the global fetch by others: the count is the number of
    closures not yet called; [acquire] installs the payment-aware fetch and
    captures the current one exactly when the count is 0, and otherwise
    leaves the global fetch alone; calling a closure a second time changes
    nothing, the first call lowers the count by one; a call changes the
    global fetch only when it brings the count from 1 to 0 while the global
    fetch is still the payment-aware one, and then puts back the captured
    original, which is forgotten whenever the count reaches 0. *)
Theorem fetch_patcher_refcount (g0 : Fetch) (ops : list Index.Op) :
  let w := Index.run fetchImpl (Index.patcher_init g0) ops in
  Index.consistent w
  /\ (let w' := snd (Index.acquire fetchImpl w) in
      Index.activeStreams w' = Index.activeStreams w + 1
      /\ (Index.activeStreams w = 0 ->
            Index.globalFetch w' = fetchImpl
            /\ Index.originalFetch w' = Some (Index.globalFetch w))
      /\ (Index.activeStreams w <> 0 ->
            Index.globalFetch w' = Index.globalFetch w
            /\ Index.originalFetch w' = Index.originalFetch w))
  /\ (forall h,
        let w' := Index.release fetchImpl h w in
        Index.release fetchImpl h w' = w'
        /\ (Index.released w !! h <> Some false -> w' = w)
        /\ (Index.released w !! h = Some false ->
              Index.activeStreams w' = Index.activeStreams w - 1
              /\ (Index.activeStreams w = 1 -> Index.globalFetch w = fetchImpl ->
                    Index.originalFetch w = Some (Index.globalFetch w')
                    /\ Index.originalFetch w' = None)
              /\ (Index.activeStreams w = 1 -> Index.globalFetch w <> fetchImpl ->
                    Index.globalFetch w' = Index.globalFetch w
                    /\ Index.originalFetch w' = None)
              /\ (Index.activeStreams w <> 1 ->
                    Index.globalFetch w' = Index.globalFetch w
                    /\ Index.originalFetch w' = Index.originalFetch w))
        /\ (Index.globalFetch w' <> Index.globalFetch w ->
              Index.released w !! h = Some false
              /\ Index.activeStreams w = 1
              /\ Index.globalFetch w = fetchImpl
              /\ Index.originalFetch w = Some (Index.globalFetch w'))).
Proof.
  intros w.
  assert (Hw : Index.consistent w) by apply consistent_run, consistent_init.
  clearbody w. split; [exact Hw|]. split.
  - unfold Index.acquire. destruct (Z.eqb_spec (Index.activeStreams w) 0) as [E|E]; simpl.
    + repeat split; congruence.
    + repeat split; congruence.
  - intros h w'. subst w'. split; [apply release_twice|].
    split; [apply release_not_live|].
    assert (Hlive : Index.released w !! h = Some false ->
              exists orig, Index.originalFetch w = Some orig)
      by apply live_has_original, Hw.
    split.
    + intros Hh. destruct (Hlive Hh) as [orig Ho].
      rewrite (release_live _ _ _ Hh Ho).
      destruct (Z.eqb_spec (Index.activeStreams w - 1) 0) as [E|E]; simpl.
      * split; [reflexivity|]. split; [|split].
        -- intros _ ->. rewrite bool_decide_eq_true_2 by reflexivity. auto.
        -- intros _ Hne. rewrite bool_decide_eq_false_2 by exact Hne. auto.
        -- intros Hne. lia.
      * split; [reflexivity|]. split; [|split]; try (intros; lia). auto.
    + intros Hchg.
      destruct (decide (Index.released w !! h = Some false)) as [Hh|Hh].
      2:{ rewrite (release_not_live _ _ Hh) in Hchg. contradiction. }
      destruct (Hlive Hh) as [orig Ho].
      rewrite (release_live _ _ _ Hh Ho) in *.
      destruct (Z.eqb_spec (Index.activeStreams w - 1) 0) as [E|E]; simpl in *;
        [|contradiction].
      destruct (decide (Index.globalFetch w = fetchImpl)) as [Hg|Hg].
      * rewrite bool_decide_eq_true_2 in * by exact Hg.
        repeat split; [exact Hh|lia|exact Hg|exact Ho].
      * rewrite bool_decide_eq_false_2 in Hchg by exact Hg. contradiction.
Qed.

End PatcherProperties.

(** Two streaming calls in flight: releasing the first leaves the payment-aware
    fetch (1) installed, releasing the second puts the original (0) back, and
    releasing again changes nothing. *)
Example two_streams_share_one_patch :
  let w2 := Index.run 1%nat (Index.patcher_init 0%nat) [Index.Acquire; Index.Acquire] in
  let w1 := Index.release 1%nat 0%nat w2 in
  let w0 := Index.release 1%nat 1%nat w1 in
  Index.globalFetch w2 = 1%nat
  /\ Index.globalFetch w1 = 1%nat /\ Index.activeStreams w1 = 1
  /\ Index.globalFetch w0 = 0%nat /\ Index.activeStreams w0 = 0
  /\ Index.release 1%nat 0%nat w0 = w0 /\ Index.release 1%nat 1%nat w0 = w0.
Proof. vm_compute. repeat split. Qed.

(* ===================================================================== *)
(** * Properties of index.ts: the router config resolver                  *)
(* ===================================================================== *)

Lemma append_assoc (a b c : string) : (a +:+ b) +:+ c = a +:+ b +:+ c.
Proof.
  induction a as [|x a IH]; [reflexivity|].
  change (String x ((a +:+ b) +:+ c) = String x (a +:+ b +:+ c)). f_equal. exact IH.
Qed.

Lemma append_nil_r (a : string) : a +:+ "" = a.
Proof.
  induction a as [|x a IH]; [reflexivity|].
  change (String x (a +:+ "") = String x a). f_equal. exact IH.
Qed.

(** The config endpoint resolved against an origin is the origin followed by
    [/v1/config]. *)
Lemma config_url_of_origin URL_parse (routerUrl : string) (b : Url.URL) h :
  URL_parse (routerUrl +:+ "/") = Some b ->
  Url.opaque_path b = false -> Url.username b = "" -> Url.password b = "" ->
  Url.host b = Some h -> routerUrl = Url.tuple_origin b ->
  Url.href <$> Url.resolve_absolute_path URL_parse "/v1/config" (routerUrl +:+ "/")
  = Some (routerUrl +:+ "/v1/config").
Proof.
  intros Hb Hop Hu Hp Hh Ho. unfold Url.resolve_absolute_path. rewrite Hb, Hop.
  simpl. f_equal. unfold Url.href. simpl. rewrite Hu, Hp, Hh. simpl.
  rewrite Ho. unfold Url.tuple_origin, Url.serialize_host_port. simpl. rewrite Hh. simpl.
  rewrite !append_assoc, !append_nil_r. reflexivity.
Qed.

Section ResolverProperties.

Variable URL_parse : string -> option Url.URL.
Variable normalizeRouterConfig : Json -> Index.RouterDefaults -> RouterConfig.
Variable options : Index.ResolverOptions.

#[local] Abbreviation resolve := (Index.resolve URL_parse normalizeRouterConfig options).
#[local] Abbreviation fallbackValue :=
  (normalizeRouterConfig (JObject [])
     (Index.mkRouterDefaults (Index.opt_network options) (Index.opt_paymentHeader options))).

(** A call that returns a config leaves exactly that object in the cache. *)
Lemma resolve_caches_what_it_returns baseFetch now st next_id c :
  Index.returned (resolve baseFetch now st next_id) = Normal c ->
  Index.cached (Index.stateAfter (resolve baseFetch now st next_id)) = Some c.
Proof.
  unfold Index.resolve, Index.refresh.
  destruct (Index.cached st) as [c0|] eqn:Hc.
  - destruct (now - Index.cachedAtMs st <? Index.CACHE_TTL_MS); simpl.
    + intros [= <-]. exact Hc.
    + destruct (Url.resolve_absolute_path _ _ _); [|discriminate].
      destruct (baseFetch _) as [resp|]; simpl; [|intros [= <-]; reflexivity].
      destruct (ok resp); simpl; [|intros [= <-]; reflexivity].
      destruct (json resp); simpl; intros [= <-]; reflexivity.
  - destruct (Url.resolve_absolute_path _ _ _); [|discriminate].
    destruct (baseFetch _) as [resp|]; simpl; [|intros [= <-]; reflexivity].
    destruct (ok resp); simpl; [|intros [= <-]; reflexivity].
    destruct (json resp); simpl; intros [= <-]; reflexivity.
Qed.

(** X8.  One call of the resolver, in any state, for a router URL against
    which the config endpoint resolves.  While a config is cached and younger
    than 30 seconds the call returns that very object and fetches nothing.
    Otherwise it fetches the config endpoint once, which for a router URL
    that is an origin is the router URL followed by [/v1/config]; when the
    request fails, the response is not 2xx or its body is no JSON, it returns
    a fallback built from the configured network and payment header, and
    caches it with the time of the call; it does not throw.  The object a
    call returns is the one the next call within the 30 seconds returns
    again. *)
Theorem router_config_resolver (baseFetch : string -> Completion Response)
    (now : Z) (st : Index.ResolverState) (next_id : nat) (configUrl : Url.URL) :
  Url.resolve_absolute_path URL_parse "/v1/config"
    (Index.opt_routerUrl options +:+ "/") = Some configUrl ->
  let r := resolve baseFetch now st next_id in
  (forall c, Index.cached st = Some c -> now - Index.cachedAtMs st < 30000 ->
     r = Index.mkResolveResult [] (Normal c) st next_id)
  /\ (Index.cached st = None \/ 30000 <= now - Index.cachedAtMs st ->
        let fallback := Index.mkConfigObject next_id fallbackValue in
        Index.fetched r = [Url.href configUrl]
        /\ ((exists e, baseFetch (Url.href configUrl) = Throw e) \/
            (exists resp, baseFetch (Url.href configUrl) = Normal resp
                          /\ (ok resp = false \/ exists e, json resp = Throw e)) ->
            Index.returned r = Normal fallback
            /\ Index.stateAfter r = Index.mkResolverState (Some fallback) now)
        /\ (forall resp data,
              baseFetch (Url.href configUrl) = Normal resp -> ok resp = true ->
              json resp = Normal data ->
              let config :=
                Index.mkConfigObject (S next_id)
                  (normalizeRouterConfig data
                     (Index.mkRouterDefaults (Index.opt_network options)
                        (Index.opt_paymentHeader options))) in
              Index.returned r = Normal config
              /\ Index.stateAfter r = Index.mkResolverState (Some config) now))
  /\ (forall b h,
        Index.cached st = None \/ 30000 <= now - Index.cachedAtMs st ->
        URL_parse (Index.opt_routerUrl options +:+ "/") = Some b ->
        Url.opaque_path b = false -> Url.username b = "" -> Url.password b = "" ->
        Url.host b = Some h -> Index.opt_routerUrl options = Url.tuple_origin b ->
        Index.fetched r = [Index.opt_routerUrl options +:+ "/v1/config"])
  /\ (forall c baseFetch' now' next_id',
        Index.returned r = Normal c ->
        now' - Index.cachedAtMs (Index.stateAfter r) < 30000 ->
        resolve baseFetch' now' (Index.stateAfter r) next_id'
        = Index.mkResolveResult [] (Normal c) (Index.stateAfter r) next_id').
Proof.
  intros Hurl r.
  assert (Hhit : forall baseFetch now st next_id c,
             Index.cached st = Some c -> now - Index.cachedAtMs st < 30000 ->
             resolve baseFetch now st next_id
             = Index.mkResolveResult [] (Normal c) st next_id).
  { intros bf n s0 nid c Hc Hage. unfold Index.resolve. rewrite Hc.
    destruct (Z.ltb_spec (n - Index.cachedAtMs s0) Index.CACHE_TTL_MS) as [_|Hge];
      [reflexivity|]. unfold Index.CACHE_TTL_MS in Hge. lia. }
  assert (Hmiss : Index.cached st = None \/ 30000 <= now - Index.cachedAtMs st ->
             r = Index.refresh URL_parse normalizeRouterConfig options
                   baseFetch now st next_id).
  { intros Hmiss. subst r. unfold Index.resolve.
    destruct (Index.cached st) as [c|]; [|reflexivity].
    destruct Hmiss as [Hnone|Hold]; [discriminate|].
    destruct (Z.ltb_spec (now - Index.cachedAtMs st) Index.CACHE_TTL_MS) as [Hlt|_];
      [|reflexivity]. unfold Index.CACHE_TTL_MS in Hlt. lia. }
  split; [apply Hhit|]. split; [|split].
  - intros Hm fallback.
    rewrite (Hmiss Hm). unfold Index.refresh. rewrite Hurl.
    destruct (baseFetch (Url.href configUrl)) as [resp|e] eqn:Hfetch.
    + destruct (ok resp) eqn:Hok; simpl.
      * destruct (json resp) as [data|e] eqn:Hjson; simpl.
        -- split; [reflexivity|]. split.
           ++ intros [[e ?]|(resp' & [= <-] & [?|[e ?]])]; congruence.
           ++ intros resp' data' [= <-] _ Hd. rewrite Hjson in Hd.
              injection Hd as <-. split; reflexivity.
        -- split; [reflexivity|]. split.
           ++ intros _. split; reflexivity.
           ++ intros resp' data' [= <-] _ Hd. congruence.
      * split; [reflexivity|]. split.
        -- intros _. split; reflexivity.
        -- intros resp' data' [= <-] Hok'. congruence.
    + simpl. split; [reflexivity|]. split.
      * intros _. split; reflexivity.
      * intros resp' data' Hresp. discriminate.
  - intros b h Hm Hb Hop Hu Hp Hh Ho.
    pose proof (config_url_of_origin URL_parse _ b h Hb Hop Hu Hp Hh Ho) as Hhref.
    rewrite (Hmiss Hm). unfold Index.refresh.
    rewrite Hurl in Hhref |- *. injection Hhref as <-.
    destruct (baseFetch _) as [resp|]; [|reflexivity].
    destruct (ok resp); [|reflexivity]. destruct (json resp); reflexivity.
  - intros c baseFetch' now' next_id' Hret Hage.
    apply Hhit; [|exact Hage].
    apply resolve_caches_what_it_returns, Hret.
Qed.

End ResolverProperties.

Lemma router_config_resolver_witness :
  let r := Index.resolve Url.parse_basic Fixtures.normalizeRouterConfig
             Fixtures.resolverOptions Fixtures.routerDown 1000 Index.resolver_init 0%nat in
  Index.fetched r = ["http://localhost:8080/v1/config"]
  /\ Index.returned r
     = Normal (Index.mkConfigObject 0%nat
                 (mkRouterConfig "eip155:8453" "" "" "" "" "" "PAYMENT-SIGNATURE")).
Proof.
  pose proof (router_config_resolver Url.parse_basic Fixtures.normalizeRouterConfig
                Fixtures.resolverOptions Fixtures.routerDown 1000 Index.resolver_init 0%nat
                (Url.mkURL "http" "" "" (Some "localhost") (Some 8080) "/v1/config"
                   false None None)) as H.
  destruct H as (_ & Hmiss & _); [vm_compute; reflexivity|].
  destruct Hmiss as (Hfetched & Hfallback & _); [left; reflexivity|].
  split; [exact Hfetched|].
  apply Hfallback. right. eexists. split; [reflexivity|]. left. reflexivity.
Defined.

(** C6, at the router URL [null], which is what configuration loading
    makes of [localhost:8080]: the config endpoint cannot be resolved against
    it, and the resolver builds that URL before its [try].  Every call
    throws to the caller instead of returning the fallback; nothing is
    fetched and nothing is cached, so the next call throws again. *)
Lemma resolver_claim_fails :
  let options := Index.mkResolverOptions "null" "eip155:8453" "PAYMENT-SIGNATURE" in
  let resolve := Index.resolve Url.parse_basic Fixtures.normalizeRouterConfig options in
  let r1 := resolve Fixtures.routerUp 1000 Index.resolver_init 0%nat in
  let r2 := resolve Fixtures.routerDown 2000 (Index.stateAfter r1) (Index.nextIdAfter r1) in
  (exists env,
     Env.loadX402Env Url.parse_basic Fixtures.env_router_without_scheme = Normal env
     /\ Env.routerUrl env = Index.opt_routerUrl options)
  /\ Url.resolve_absolute_path Url.parse_basic "/v1/config"
       (Index.opt_routerUrl options +:+ "/") = None
  /\ Index.returned r1 = Throw "Invalid URL"
  /\ Index.fetched r1 = []
  /\ Index.stateAfter r1 = Index.resolver_init
  /\ Index.returned r2 = Throw "Invalid URL"
  /\ Index.fetched r2 = [].
Proof.
  split; [eexists; split; [vm_compute; reflexivity|reflexivity]|].
  vm_compute. repeat split.
Qed.

(** A router that is down: the first call fetches the endpoint and returns
    the fallback; a second call 29.999 seconds later returns the same object
    and fetches nothing; a call at 30 seconds fetches again. *)
Example resolver_ttl_window :
  let resolve := Index.resolve Url.parse_basic Fixtures.normalizeRouterConfig
                   Fixtures.resolverOptions in
  let r1 := resolve Fixtures.routerDown 1000 Index.resolver_init 0%nat in
  let r2 := resolve Fixtures.routerUp 30999 (Index.stateAfter r1) (Index.nextIdAfter r1) in
  let r3 := resolve Fixtures.routerUp 31000 (Index.stateAfter r1) (Index.nextIdAfter r1) in
  Index.fetched r1 = ["http://localhost:8080/v1/config"]
  /\ Index.obj_id <$> Index.returned_config r1 = Some 0%nat
  /\ Index.fetched r2 = [] /\ Index.returned r2 = Index.returned r1
  /\ Index.fetched r3 = ["http://localhost:8080/v1/config"]
  /\ Index.obj_id <$> Index.returned_config r3 = Some 2%nat.
Proof. vm_compute. repeat split. Qed.

(* ===================================================================== *)
(** * Properties of the permit cache                                      *)
(* ===================================================================== *)

(** C3.  [getPermit] answers from the cache, without signing, exactly when
    the key has an entry with [now < deadline] and recorded spend below
    [maxValue].  When the entry's deadline has passed or its spend has
    reached [maxValue], [signFn] is invoked and its outcome returned; the
    permit it signs replaces the entry, with a ledger of zero.  Spend recorded
    up to the cap has that effect on the next call. *)
Theorem permit_cache_reuse (now : Z) (cache : gmap string Cache.Entry) (key : string)
    (signFn : unit -> Completion CachedPermit) :
  let r := Cache.getPermit now cache key signFn in
  (Cache.signInvoked r = false ->
     exists e cap,
       cache !! key = Some e
       /\ Cache.outcome r = Normal (Cache.permit e)
       /\ now < deadline (Cache.permit e)
       /\ JS.BigInt (maxValue (Cache.permit e)) = Normal cap
       /\ Cache.spent e < cap
       /\ Cache.cacheAfter r = cache)
  /\ (forall e cap,
        cache !! key = Some e -> now < deadline (Cache.permit e) ->
        JS.BigInt (maxValue (Cache.permit e)) = Normal cap -> Cache.spent e < cap ->
        r = Cache.mkGetPermitResult false (Normal (Cache.permit e)) cache)
  /\ (forall e,
        cache !! key = Some e ->
        deadline (Cache.permit e) <= now
        \/ (exists cap, JS.BigInt (maxValue (Cache.permit e)) = Normal cap
                        /\ cap <= Cache.spent e) ->
        Cache.signInvoked r = true
        /\ Cache.outcome r = signFn tt
        /\ forall fresh, signFn tt = Normal fresh ->
             Cache.cacheAfter r = <[key := Cache.mkEntry fresh 0]> cache
             /\ Cache.cacheAfter r !! key = Some (Cache.mkEntry fresh 0))
  /\ (forall e cap amount,
        cache !! key = Some e ->
        JS.BigInt (maxValue (Cache.permit e)) = Normal cap ->
        cap <= Cache.spent e + amount ->
        Cache.signInvoked
          (Cache.getPermit now (Cache.recordSpend cache key amount) key signFn) = true).
Proof.
  intros r. subst r.
  assert (Hexpired : forall (c : gmap string Cache.Entry) e,
             c !! key = Some e -> Cache.reusable now e = false ->
             Cache.signInvoked (Cache.getPermit now c key signFn) = true
             /\ Cache.outcome (Cache.getPermit now c key signFn) = signFn tt
             /\ forall fresh, signFn tt = Normal fresh ->
                  Cache.cacheAfter (Cache.getPermit now c key signFn)
                  = <[key := Cache.mkEntry fresh 0]> c).
  { intros c e He Hre. unfold Cache.getPermit. rewrite He, Hre.
    destruct (signFn tt) as [fresh|err]; simpl; repeat split; try discriminate.
    intros fresh' [= <-]. reflexivity. }
  split; [|split; [|split]].
  - unfold Cache.getPermit.
    destruct (cache !! key) as [e|] eqn:He.
    2:{ destruct (signFn tt); simpl; discriminate. }
    destruct (Cache.reusable now e) eqn:Hre.
    2:{ destruct (signFn tt); simpl; discriminate. }
    intros _. unfold Cache.reusable in Hre.
    apply andb_prop in Hre as [Hd Hs].
    destruct (JS.BigInt (maxValue (Cache.permit e))) as [cap|] eqn:Hcap; [|discriminate].
    apply Z.ltb_lt in Hd, Hs.
    exists e, cap. simpl. repeat split; try reflexivity; assumption.
  - intros e cap He Hd Hcap Hs. unfold Cache.getPermit, Cache.reusable.
    rewrite He, Hcap.
    destruct (Z.ltb_spec now (deadline (Cache.permit e))); [|lia].
    destruct (Z.ltb_spec (Cache.spent e) cap); [|lia]. reflexivity.
  - intros e He Hbad.
    assert (Hre : Cache.reusable now e = false).
    { unfold Cache.reusable. destruct Hbad as [Hd|(cap & Hcap & Hs)].
      - destruct (Z.ltb_spec now (deadline (Cache.permit e))); [lia|reflexivity].
      - rewrite Hcap. destruct (Z.ltb_spec (Cache.spent e) cap); [lia|].
        apply andb_false_r. }
    destruct (Hexpired cache e He Hre) as (Hs & Ho & Hc).
    split; [exact Hs|]. split; [exact Ho|].
    intros fresh Hfresh. rewrite (Hc fresh Hfresh).
    split; [reflexivity|apply lookup_insert_eq].
  - intros e cap amount He Hcap Hs.
    apply (Hexpired _ (Cache.mkEntry (Cache.permit e) (Cache.spent e + amount))).
    + unfold Cache.recordSpend. rewrite lookup_alter_eq, He. reflexivity.
    + unfold Cache.reusable. simpl. rewrite Hcap.
      destruct (Z.ltb_spec (Cache.spent e + amount) cap); [lia|apply andb_false_r].
Qed.

(** An unexpired permit with spend below the cap is reused; the same permit
    after its deadline, or with its cap spent, is signed afresh. *)
Example permit_cache_scenarios :
  let cache : gmap string Cache.Entry :=
    {[ Fixtures.permitKey := Cache.mkEntry Fixtures.cachedPermit 4000000 ]} in
  let sign := fun _ : unit => Fixtures.signer Fixtures.signParams in
  Cache.signInvoked (Cache.getPermit 1700003599 cache Fixtures.permitKey sign) = false
  /\ Cache.signInvoked (Cache.getPermit 1700003600 cache Fixtures.permitKey sign) = true
  /\ Cache.signInvoked
       (Cache.getPermit 1700003599 (Cache.recordSpend cache Fixtures.permitKey 6000000)
          Fixtures.permitKey sign) = true
  /\ Cache.spent
       <$> Cache.cacheAfter (Cache.getPermit 1700003600 cache Fixtures.permitKey sign)
           !! Fixtures.permitKey = Some 0.
Proof. vm_compute. repeat split. Qed.

(* ===================================================================== *)
(** * Properties of the payment-aware fetch                               *)
(* ===================================================================== *)

(** C2, as amended.  One logical request makes the payment-aware fetch call
    its [baseFetch] at most twice (the traffic of the config resolver and of
    the signer is theirs).  In signed-permit mode, when the first response is
    a 401 or 402: if the router config and a permit are obtained, the request
    is re-issued exactly once, after the config resolution and the permit
    acquisition, with the payment header set to the permit's signature, and
    the response of that second call is what the caller gets, whatever its
    status; if the config or the permit cannot be obtained, nothing is
    re-issued and the caller gets the first response. *)
Theorem payment_retry_is_single (options : FetchWrapper.X402FetchOptions) (now : Z)
    (cache : gmap string Cache.Entry) (request : Request) :
  let r := FetchWrapper.x402Fetch options now cache request in
  (length (FetchWrapper.networkCalls r) <= 2)%nat
  /\ (forall first,
        FetchWrapper.staticPayment options = None ->
        FetchWrapper.baseFetch options [] request = Normal first ->
        status first = 401 \/ status first = 402 ->
        match FetchWrapper.resolveRouterConfig options tt with
        | Throw _ =>
            FetchWrapper.networkCalls r = [request]
            /\ FetchWrapper.response r = Normal first
            /\ FetchWrapper.permitCache r = cache
        | Normal cfg =>
            let params := mkSignPermitParams (FetchWrapper.privateKey options)
                            (FetchWrapper.permitCap options) cfg in
            let got := Cache.getPermit now cache (Cache.permitKey cfg)
                         (fun _ => FetchWrapper.signer options params) in
            FetchWrapper.permitCache r = Cache.cacheAfter got
            /\ match Cache.outcome got with
               | Throw _ =>
                   FetchWrapper.networkCalls r = [request]
                   /\ FetchWrapper.response r = Normal first
               | Normal signed =>
                   let retry := set_header (paymentHeader cfg) (paymentSig signed) request in
                   FetchWrapper.networkCalls r = [request; retry]
                   /\ FetchWrapper.response r = FetchWrapper.baseFetch options [request] retry
                   /\ FetchWrapper.events r
                      = [FetchWrapper.NetworkCall request; FetchWrapper.ConfigResolution]
                          ++ (if Cache.signInvoked got
                              then [FetchWrapper.PermitSigning params] else [])
                          ++ [FetchWrapper.NetworkCall retry]
               end
        end).
Proof.
  intros r. subst r. split.
  - unfold FetchWrapper.x402Fetch, FetchWrapper.networkCalls.
    destruct (FetchWrapper.staticPayment options) as [[name value]|]; [simpl; lia|].
    destruct (FetchWrapper.baseFetch options [] request) as [first|]; [|simpl; lia].
    destruct (negb (FetchWrapper.paymentRequired first)); [simpl; lia|].
    destruct (FetchWrapper.resolveRouterConfig options tt) as [cfg|]; [|simpl; lia].
    destruct (Cache.getPermit _ _ _ _) as [invoked [signed|] after]; simpl;
      destruct invoked; simpl; lia.
  - intros first Hstatic Hfirst Hstatus.
    unfold FetchWrapper.x402Fetch. rewrite Hstatic, Hfirst.
    assert (Hpay : FetchWrapper.paymentRequired first = true).
    { unfold FetchWrapper.paymentRequired. apply bool_decide_eq_true_2.
      destruct Hstatus as [-> | ->]; set_solver. }
    rewrite Hpay. cbn [negb].
    destruct (FetchWrapper.resolveRouterConfig options tt) as [cfg|e].
    2:{ repeat split. }
    cbv zeta.
    set (params := mkSignPermitParams _ _ cfg).
    set (got := Cache.getPermit _ _ _ _).
    destruct (Cache.outcome got) as [signed|e]; unfold FetchWrapper.networkCalls;
      cbn [FetchWrapper.events FetchWrapper.response FetchWrapper.permitCache].
    + repeat split. destruct (Cache.signInvoked got); reflexivity.
    + repeat split. destruct (Cache.signInvoked got); reflexivity.
Qed.

(** C2, the claim as stated fails: the router answers 402 and the chain's
    node is out of reach, so the nonce read of the signer fails, no permit is
    obtained and no retry is issued: one network call, and the caller gets
    the 402. *)
Lemma retry_claim_fails :
  let options :=
    FetchWrapper.mkX402FetchOptions Fixtures.alwaysPaymentRequired
      (fun _ => Normal Fixtures.routerConfig)
      "10000000" Fixtures.VALID_PRIVATE_KEY "http://localhost:8080"
      Fixtures.signerNodeDown None in
  let request := mkRequest Fixtures.chatUrl ∅ in
  let r := FetchWrapper.x402Fetch options 1700000000 ∅ request in
  (exists first,
     FetchWrapper.baseFetch options [] request = Normal first /\ status first = 402)
  /\ SignPermit.signPermitWithViem Fixtures.runtimeNodeDown 1700000000123 Fixtures.signParams
     = ([SignPermit.ReadNonces (SignPermit.IsChain SignPermit.base)
           (asset Fixtures.routerConfig) "0x1111111111111111111111111111111111111111"],
        Throw "HTTP request failed.")
  /\ FetchWrapper.events r
     = [ FetchWrapper.NetworkCall request;
         FetchWrapper.ConfigResolution;
         FetchWrapper.PermitSigning Fixtures.signParams ]
  /\ FetchWrapper.networkCalls r = [request]
  /\ (status <$> FetchWrapper.response_value r) = Some 402.
Proof. split; [eexists; split; reflexivity|]. vm_compute. repeat split. Qed.

(** Scenario B: the router rejects the retry too; two network calls are made
    and the second 402 is what the caller gets.  Scenario A: the retry is
    accepted. *)
Example payment_retry_scenarios :
  let options baseFetch :=
    FetchWrapper.mkX402FetchOptions baseFetch (fun _ => Normal Fixtures.routerConfig)
      "10000000" Fixtures.VALID_PRIVATE_KEY "http://localhost:8080" Fixtures.signer None in
  let b := FetchWrapper.x402Fetch (options Fixtures.alwaysPaymentRequired) 1700000000 ∅
             (mkRequest Fixtures.chatUrl ∅) in
  let a := FetchWrapper.x402Fetch (options Fixtures.paidOnRetry) 1700000000 ∅
             (mkRequest Fixtures.chatUrl ∅) in
  length (FetchWrapper.networkCalls b) = 2%nat
  /\ (status <$> FetchWrapper.response_value b) = Some 402
  /\ length (FetchWrapper.networkCalls a) = 2%nat
  /\ (status <$> FetchWrapper.response_value a) = Some 200
  /\ (Cache.permit <$> FetchWrapper.permitCache a !! Fixtures.permitKey)
     = Some Fixtures.cachedPermit.
Proof. vm_compute. repeat split. Qed.

(* ===================================================================== *)
(** * Static payment signature                                            *)
(* ===================================================================== *)




(** Scenario C: a static signature is configured and the router answers 402
    all the same.  One request is sent, with the header; the 402 is what the
    caller gets. *)
Example static_mode_scenario :
  let options :=
    FetchWrapper.mkX402FetchOptions Fixtures.alwaysPaymentRequired
      (fun _ => Normal Fixtures.routerConfig) "10000000" Fixtures.VALID_PRIVATE_KEY
      "http://localhost:8080" Fixtures.signer
      (Some ("PAYMENT-SIGNATURE", "signed-payment-payload")) in
  let r := FetchWrapper.x402Fetch options 1700000000 ∅ (mkRequest Fixtures.chatUrl ∅) in
  FetchWrapper.events r
  = [ FetchWrapper.NetworkCall
        (set_header "PAYMENT-SIGNATURE" "signed-payment-payload"
           (mkRequest Fixtures.chatUrl ∅)) ]
  /\ (status <$> FetchWrapper.response_value r) = Some 402.
Proof. vm_compute. repeat split. Qed.

(* ===================================================================== *)
(** * Further properties of src/env.ts                                    *)
(* ===================================================================== *)

Lemma of_chars_chars (s : string) : JS.of_chars (JS.chars s) = s.
Proof. apply string_of_list_ascii_of_string. Qed.

Lemma drop_while_split (p : ascii -> bool) (l : list ascii) :
  exists pre, l = pre ++ JS.drop_while p l /\ forallb p pre = true.
Proof.
  induction l as [|c l (pre & IH & Hpre)]; [exists []; split; reflexivity|].
  cbn [JS.drop_while]. destruct (p c) eqn:Hc.
  - exists (c :: pre). cbn [app forallb]. rewrite Hc, Hpre, <- IH. split; reflexivity.
  - exists []. split; reflexivity.
Qed.

Lemma drop_while_head (p : ascii -> bool) (l : list ascii) c rest :
  JS.drop_while p l = c :: rest -> p c = false.
Proof.
  induction l as [|x l IH]; [discriminate|]. cbn [JS.drop_while].
  destruct (p x) eqn:Hx; [exact IH|]. intros [= <- _]. exact Hx.
Qed.

Lemma drop_while_fixed (p : ascii -> bool) (l : list ascii) :
  match l with [] => True | c :: _ => p c = false end -> JS.drop_while p l = l.
Proof. destruct l as [|c l]; [reflexivity|]. cbn [JS.drop_while]. intros ->. reflexivity. Qed.

(** The characters [trim] keeps: neither the first nor the last is white
    space. *)
Lemma trim_chars_ends (s : string) :
  let t := JS.chars (JS.trim s) in
  match t with [] => True | c :: _ => JS.is_whitespace c = false end
  /\ match rev t with [] => True | c :: _ => JS.is_whitespace c = false end.
Proof.
  cbv zeta. unfold JS.trim. rewrite chars_of_chars.
  set (l1 := JS.drop_while JS.is_whitespace (JS.chars s)).
  destruct (drop_while_split JS.is_whitespace (rev l1)) as (pre & Hsplit & Hpre).
  set (d := JS.drop_while JS.is_whitespace (rev l1)) in *.
  split.
  - assert (Hl1 : l1 = rev d ++ rev pre).
    { rewrite <- (rev_involutive l1), Hsplit, rev_app_distr. reflexivity. }
    destruct (rev d) as [|c t] eqn:Ht; [exact I|].
    rewrite Hl1 in *. subst l1.
    eapply drop_while_head. cbn [app] in Hl1. exact Hl1.
  - rewrite rev_involutive. destruct d as [|c t] eqn:Hd; [exact I|].
    eapply drop_while_head. exact Hd.
Qed.

Lemma trim_fixed (l : list ascii) :
  match l with [] => True | c :: _ => JS.is_whitespace c = false end ->
  match rev l with [] => True | c :: _ => JS.is_whitespace c = false end ->
  JS.trim (JS.of_chars l) = JS.of_chars l.
Proof.
  intros Hfirst Hlast. unfold JS.trim. rewrite chars_of_chars.
  rewrite (drop_while_fixed _ l Hfirst), (drop_while_fixed _ (rev l) Hlast).
  rewrite rev_involutive. reflexivity.
Qed.

Lemma trim_idempotent (s : string) : JS.trim (JS.trim s) = JS.trim s.
Proof.
  destruct (trim_chars_ends s) as [Hfirst Hlast].
  rewrite <- (of_chars_chars (JS.trim s)) at 1 2.
  apply trim_fixed; assumption.
Qed.

(** What [trim] removes: white space before and after what it keeps. *)
Lemma trim_decomposition (s : string) :
  exists before after,
    JS.chars s = before ++ JS.chars (JS.trim s) ++ after
    /\ forallb JS.is_whitespace before = true
    /\ forallb JS.is_whitespace after = true.
Proof.
  unfold JS.trim. rewrite chars_of_chars.
  destruct (drop_while_split JS.is_whitespace (JS.chars s)) as (pre & Hl & Hpre).
  set (l1 := JS.drop_while JS.is_whitespace (JS.chars s)) in *.
  destruct (drop_while_split JS.is_whitespace (rev l1)) as (pre2 & Hrev & Hpre2).
  set (d := JS.drop_while JS.is_whitespace (rev l1)) in *.
  exists pre, (rev pre2). split; [|split; [exact Hpre|]].
  - rewrite Hl at 1. f_equal.
    rewrite <- (rev_involutive l1), Hrev, rev_app_distr. reflexivity.
  - rewrite forallb_forall in *. intros c Hc. apply Hpre2, in_rev, Hc.
Qed.

Lemma drop_while_all (p : ascii -> bool) (l : list ascii) :
  forallb p l = true -> JS.drop_while p l = [].
Proof.
  induction l as [|c l IH]; [reflexivity|]. cbn [forallb JS.drop_while].
  intros H. apply andb_prop in H as [-> H]. apply IH, H.
Qed.

(** [trim] leaves nothing exactly of a string of white space. *)
Lemma trim_empty_iff (s : string) :
  JS.trim s = "" <-> forallb JS.is_whitespace (JS.chars s) = true.
Proof.
  split.
  - intros Hs. destruct (trim_decomposition s) as (before & after & Hl & Hb & Ha).
    rewrite Hs in Hl. cbn in Hl. rewrite Hl, forallb_app, Hb, Ha. reflexivity.
  - intros Hs. unfold JS.trim. rewrite (drop_while_all _ _ Hs). reflexivity.
Qed.

(** X1.  A variable read from the environment is missing exactly when it is
    absent or consists of white space only (the no-break space included).
    Otherwise what is read is what the variable holds between leading and
    trailing white space: it is not empty, neither its first nor its last
    character is white space, and trimming it again changes nothing. *)
Theorem readTrimmed_is_trimmed (env : Env.EnvSource) (key : string) :
  (forall v, Env.readTrimmed env key = Some v ->
     v <> "" /\ JS.trim v = v
     /\ JS.is_whitespace (List.hd "x"%char (JS.chars v)) = false
     /\ JS.is_whitespace (List.hd "x"%char (rev (JS.chars v))) = false
     /\ exists raw before after,
          env !! key = Some raw
          /\ JS.chars raw = before ++ JS.chars v ++ after
          /\ forallb JS.is_whitespace before = true
          /\ forallb JS.is_whitespace after = true)
  /\ (Env.readTrimmed env key = None <->
      env !! key = None
      \/ exists raw, env !! key = Some raw
                     /\ forallb JS.is_whitespace (JS.chars raw) = true).
Proof.
  unfold Env.readTrimmed. destruct (env !! key) as [raw|].
  - destruct (JS.trim raw) as [|c t] eqn:Ht.
    + split; [discriminate|]. split; [|reflexivity].
      intros _. right. exists raw. split; [reflexivity|]. apply trim_empty_iff, Ht.
    + change (0 <? JS.str_length (String c t)) with (0 <? Z.of_nat (S (String.length t))).
      destruct (Z.ltb_spec 0 (Z.of_nat (S (String.length t)))) as [_|Hle]; [|lia].
      split.
      * intros v [= <-]. split; [discriminate|]. rewrite <- Ht.
        split; [apply trim_idempotent|].
        destruct (trim_chars_ends raw) as [Hfirst Hlast].
        destruct (trim_decomposition raw) as (before & after & Hl & Hb & Ha).
        rewrite Ht in Hfirst, Hlast |- *.
        split; [exact Hfirst|]. split.
        -- destruct (rev (JS.chars (String c t))) as [|x rest] eqn:Hrev; [|exact Hlast].
           apply (f_equal (@rev ascii)) in Hrev. rewrite rev_involutive in Hrev.
           discriminate.
        -- exists raw, before, after. rewrite <- Ht. auto.
      * split; [discriminate|]. intros [|(raw' & [= <-] & Hraw)]; [discriminate|].
        apply trim_empty_iff in Hraw. congruence.
  - split; [discriminate|]. split; [auto|reflexivity].
Qed.

Lemma env_key_shape (pk : string) :
  Env.PRIVATE_KEY_REGEX pk = true ->
  exists x digits,
    pk = String "0" (String x digits)
    /\ (x = "x"%char \/ x = "X"%char)
    /\ String.length digits = 64%nat
    /\ forallb JS.is_hex_digit (JS.chars digits) = true.
Proof.
  unfold Env.PRIVATE_KEY_REGEX. destruct pk as [|c0 [|x digits]]; try discriminate.
  - cbn. destruct c0 as [[] [] [] [] [] [] [] []]; discriminate.
  - cbn [JS.chars list_ascii_of_string].
    destruct (Ascii.eqb_spec c0 "0") as [->|Hc0].
    2:{ destruct c0 as [[] [] [] [] [] [] [] []]; try discriminate; congruence. }
    intros H. apply andb_prop in H as [H Hhex]. apply andb_prop in H as [Hx Hlen].
    apply bool_decide_eq_true_1 in Hx. apply Nat.eqb_eq in Hlen.
    exists x, digits. split; [reflexivity|].
    split; [rewrite !elem_of_cons in Hx; destruct Hx as [?|[?|Hx]]; auto;
            apply elem_of_nil in Hx; contradiction|].
    split; [|exact Hhex].
    rewrite <- Hlen. clear. induction digits; simpl; congruence.
Qed.

Lemma prefix_empty (s : string) : String.prefix "" s = true.
Proof. destruct s; reflexivity. Qed.

Lemma signer_key_of_shape (digits : string) :
  String.length digits = 64%nat ->
  forallb JS.is_hex_digit (JS.chars digits) = true ->
  SignPermit.PRIVATE_KEY_REGEX (String "0" (String "x" digits)) = true.
Proof.
  intros Hlen Hhex. unfold SignPermit.PRIVATE_KEY_REGEX, JS.chars in *.
  cbn [list_ascii_of_string]. rewrite Hhex, andb_true_r.
  apply Nat.eqb_eq. rewrite <- Hlen. clear. induction digits; simpl; congruence.
Qed.

(** The normalised form of a key that matches the environment's pattern. *)
Lemma normalizePrivateKey_shape (pk : string) :
  Env.PRIVATE_KEY_REGEX pk = true ->
  Env.normalizePrivateKey pk = Normal ("0x" +:+ JS.slice_from 2 pk)
  /\ SignPermit.PRIVATE_KEY_REGEX ("0x" +:+ JS.slice_from 2 pk) = true.
Proof.
  intros Hre. destruct (env_key_shape pk Hre) as (x & digits & -> & Hx & Hlen & Hhex).
  assert (Hslice : JS.slice_from 2 (String "0" (String x digits)) = digits).
  { unfold JS.slice_from, JS.chars. cbn [list_ascii_of_string drop].
    apply string_of_list_ascii_of_string. }
  rewrite Hslice. split.
  - unfold Env.normalizePrivateKey. rewrite Hre, Hslice. cbn [negb].
    unfold JS.startsWith. destruct Hx as [-> | ->]; cbn; [reflexivity|].
    rewrite prefix_empty. reflexivity.
  - apply (signer_key_of_shape digits Hlen Hhex).
Qed.

(** X2.  A private key that matches the environment's pattern is normalised
    to [0x] followed by the same 64 hexadecimal digits; the result is left
    alone by a second normalisation and matches the signer's stricter
    pattern, which wants a lower-case prefix. *)
Theorem normalizePrivateKey_canonical (pk : string) :
  Env.PRIVATE_KEY_REGEX pk = true ->
  exists digits,
    Env.normalizePrivateKey pk = Normal ("0x" +:+ digits)
    /\ JS.slice_from 2 pk = digits
    /\ String.length digits = 64%nat
    /\ Env.normalizePrivateKey ("0x" +:+ digits) = Normal ("0x" +:+ digits)
    /\ SignPermit.asPrivateKey ("0x" +:+ digits) = Normal ("0x" +:+ digits).
Proof.
  intros Hre. destruct (env_key_shape pk Hre) as (x & digits & -> & Hx & Hlen & Hhex).
  exists digits.
  assert (Hslice : JS.slice_from 2 (String "0" (String x digits)) = digits).
  { unfold JS.slice_from, JS.chars. cbn [list_ascii_of_string drop].
    apply string_of_list_ascii_of_string. }
  assert (Hcanon : Env.PRIVATE_KEY_REGEX ("0x" +:+ digits) = true).
  { unfold Env.PRIVATE_KEY_REGEX, JS.chars in *.
    change ("0x" +:+ digits) with (String "0" (String "x" digits)).
    cbn [list_ascii_of_string]. rewrite Hhex, andb_true_r. apply andb_true_intro. split; [reflexivity|].
    apply Nat.eqb_eq. rewrite <- Hlen. clear. induction digits; simpl; congruence. }
  split; [|split; [exact Hslice|split; [exact Hlen|split]]].
  - unfold Env.normalizePrivateKey. rewrite Hre, Hslice. cbn [negb].
    unfold JS.startsWith. destruct Hx as [-> | ->]; cbn; [reflexivity|].
    rewrite prefix_empty. reflexivity.
  - unfold Env.normalizePrivateKey. rewrite Hcanon. reflexivity.
  - unfold SignPermit.asPrivateKey.
    change ("0x" +:+ digits) with (String "0" (String "x" digits)).
    rewrite (signer_key_of_shape digits Hlen Hhex). reflexivity.
Qed.

Lemma normalizePrivateKey_canonical_witness :
  Env.normalizePrivateKey
    "0Xaaaaaaaaaaaaaaaaaaaaaaaaaaaaaaaaaaaaaaaaaaaaaaaaaaaaaaaaaaaaaaaa"
  = Normal "0xaaaaaaaaaaaaaaaaaaaaaaaaaaaaaaaaaaaaaaaaaaaaaaaaaaaaaaaaaaaaaaaa".
Proof.
  destruct (normalizePrivateKey_canonical
              "0Xaaaaaaaaaaaaaaaaaaaaaaaaaaaaaaaaaaaaaaaaaaaaaaaaaaaaaaaaaaaaaaaa" eq_refl)
    as (digits & Hnorm & Hslice & _).
  rewrite Hnorm, <- Hslice. reflexivity.
Defined.

(* ===================================================================== *)
(** * Decimal strings and [BigInt]                                        *)
(* ===================================================================== *)

Lemma digits_not_whitespace (l : list ascii) :
  forallb JS.is_digit l = true ->
  match l with [] => True | c :: _ => JS.is_whitespace c = false end.
Proof.
  destruct l as [|c l]; [trivial|]. cbn [forallb]. intros H.
  apply andb_prop in H as [Hc _]. apply (digit_not_special c Hc).
Qed.

Lemma trim_digits (l : list ascii) :
  forallb JS.is_digit l = true -> JS.trim (JS.of_chars l) = JS.of_chars l.
Proof.
  intros Hl. apply trim_fixed; apply digits_not_whitespace; [exact Hl|].
  rewrite forallb_forall in *. intros c Hc. apply Hl, in_rev, Hc.
Qed.

Lemma first_digit_cases (c : ascii) :
  JS.is_digit c = true ->
  c = "0"%char \/ (c <> "0"%char /\ c <> "-"%char /\ c <> "+"%char).
Proof.
  intros Hc. destruct (Ascii.eqb_spec c "0"); [left; assumption|right].
  split; [assumption|]. split; apply (digit_not_special c Hc).
Qed.

Lemma digit_not_radix_letter (x : ascii) (letters : list ascii) :
  JS.is_digit x = true -> forallb JS.is_alpha letters = true ->
  bool_decide (x ∈ letters) = false.
Proof.
  intros Hx Hl. apply bool_decide_eq_false_2. intros Hin.
  rewrite forallb_forall in Hl. apply list_elem_of_In in Hin. specialize (Hl x Hin).
  unfold JS.is_digit, JS.is_alpha, JS.is_upper, JS.is_lower in *. lia.
Qed.

(** [BigInt] of a non-empty string of decimal digits is their value. *)
Lemma BigInt_digits (l : list ascii) :
  l <> [] -> forallb JS.is_digit l = true ->
  JS.BigInt (JS.of_chars l) = Normal (JS.digits_value 0 l).
Proof.
  intros Hne Hl. unfold JS.BigInt. rewrite (trim_digits l Hl), chars_of_chars.
  destruct l as [|c l']; [contradiction|].
  pose proof Hl as Hl'. cbn [forallb] in Hl'. apply andb_prop in Hl' as [Hc Hrest].
  destruct (first_digit_cases c Hc) as [-> | (H0 & Hm & Hp)].
  - destruct l' as [|x ds]; [reflexivity|].
    cbn [forallb] in Hrest. apply andb_prop in Hrest as [Hx Hds].
    rewrite !(digit_not_radix_letter x) by (assumption || reflexivity).
    rewrite Hl. reflexivity.
  - destruct c as [[] [] [] [] [] [] [] []];
      first [ congruence
            | exfalso; cbv in Hc; discriminate
            | cbv beta iota zeta; rewrite Hl; reflexivity ].
Qed.







Lemma digits_value_ge (ds : list ascii) : forall acc,
  0 <= acc -> forallb JS.is_digit ds = true -> acc <= JS.digits_value acc ds.
Proof.
  induction ds as [|d ds IH]; intros acc Hacc Hds; cbn [JS.digits_value]; [lia|].
  cbn [forallb] in Hds. apply andb_prop in Hds as [Hd Hds].
  pose proof (digit_value_range d Hd).
  etransitivity; [|apply IH; [lia|exact Hds]]. lia.
Qed.

(** A string that matches [^[1-9][0-9]*$] converts to a positive [bigint]. *)
Lemma positive_integer_BigInt (s : string) :
  Env.POSITIVE_INTEGER_REGEX s = true ->
  exists v, JS.BigInt s = Normal v /\ 0 < v.
Proof.
  unfold Env.POSITIVE_INTEGER_REGEX. destruct (JS.chars s) as [|d ds] eqn:Hs; [discriminate|].
  intros H. apply andb_prop in H as [H Hds]. apply andb_prop in H as [Hd Hnz].
  exists (JS.digits_value 0 (d :: ds)). split.
  - rewrite <- (of_chars_chars s), Hs. apply BigInt_digits; [discriminate|].
    cbn [forallb]. rewrite Hd, Hds. reflexivity.
  - cbn [JS.digits_value].
    assert (1 <= JS.digit_value d).
    { pose proof (digit_value_range d Hd). destruct (Ascii.eqb_spec d "0") as [->|Hne];
        [discriminate|]. unfold JS.digit_value, JS.is_digit in *.
      assert (JS.code d <> 48); [|lia]. intros Hcode. apply Hne.
      unfold JS.code in Hcode. rewrite <- (ascii_nat_embedding d).
      replace (nat_of_ascii d) with 48%nat by lia. reflexivity. }
    assert (10 * 0 + JS.digit_value d <= JS.digits_value (10 * 0 + JS.digit_value d) ds)
      by (apply digits_value_ge; [lia|exact Hds]).
    lia.
Qed.

Lemma append_nonempty_r (a b : string) : b <> "" -> a +:+ b <> "".
Proof. destruct a; [trivial|discriminate]. Qed.

Lemma origin_nonempty URL_parse (u : Url.URL) : Url.origin URL_parse u <> "".
Proof.
  assert (Ht : forall v, Url.tuple_origin v <> "").
  { intros v. unfold Url.tuple_origin. apply append_nonempty_r.
    change ("://" +:+ Url.serialize_host_port v)
      with (String ":" ("//" +:+ Url.serialize_host_port v)).
    discriminate. }
  unfold Url.origin. destruct (Url.has_tuple_origin _); [apply Ht|].
  destruct (String.eqb _ _); [|discriminate].
  destruct (URL_parse _) as [inner|]; [|discriminate].
  destruct (bool_decide _); [apply Ht|discriminate].
Qed.

Lemma readTrimmed_nonempty (env : Env.EnvSource) (key v : string) :
  Env.readTrimmed env key = Some v -> v <> "".
Proof.
  unfold Env.readTrimmed. destruct (env !! key) as [raw|]; [|discriminate].
  destruct (JS.trim raw) as [|c t]; [discriminate|]. 
  destruct (0 <? _); [|discriminate]. intros [= <-]. discriminate.
Qed.

Lemma default_readTrimmed_nonempty (env : Env.EnvSource) (key d : string) :
  d <> "" -> default d (Env.readTrimmed env key) <> "".
Proof.
  intros Hd. destruct (Env.readTrimmed env key) as [v|] eqn:Hv; [|exact Hd].
  apply (readTrimmed_nonempty env key v Hv).
Qed.

(** X4.  A configuration that loads is one the signer accepts: its private
    key passes the signer's own check, its permit cap converts to a positive
    [bigint], and none of its fields is empty.  Signing with it can only fail
    on the router's addresses or in a service (the account derivation, the
    creation of the wallet client, the nonce read, the signing), never on the
    key or the cap. *)
Theorem loaded_config_is_signable URL_parse (env : Env.EnvSource) (cfg : Env.X402EnvConfig) :
  Env.loadX402Env URL_parse env = Normal cfg ->
  SignPermit.asPrivateKey (Env.privateKey cfg) = Normal (Env.privateKey cfg)
  /\ (exists v, JS.BigInt (Env.permitCap cfg) = Normal v /\ 0 < v)
  /\ (Env.privateKey cfg <> "" /\ Env.routerUrl cfg <> "" /\ Env.network cfg <> ""
      /\ Env.permitCap cfg <> "" /\ Env.paymentHeader cfg <> ""
      /\ Env.modelId cfg <> "" /\ Env.modelName cfg <> "")
  /\ (forall rt now_ms router calls err,
        SignPermit.signPermitWithViem rt now_ms
          (mkSignPermitParams (Env.privateKey cfg) (Env.permitCap cfg) router)
        = (calls, Throw err) ->
        SignPermit.ADDRESS_REGEX (asset router) = false
        \/ SignPermit.ADDRESS_REGEX (facilitatorSigner router) = false
        \/ SignPermit.privateKeyToAccount rt (Env.privateKey cfg) = Throw err
        \/ (exists chain owner, SignPermit.createWalletClient rt owner chain = Throw err)
        \/ (exists chain owner, SignPermit.readContract rt chain (asset router) owner = Throw err)
        \/ (exists chain domain message,
              SignPermit.signTypedData rt chain domain message = Throw err)).
Proof.
  unfold Env.loadX402Env.
  destruct (Env.readTrimmed env "X402_PRIVATE_KEY") as [pk|]; [|discriminate].
  destruct (Env.PRIVATE_KEY_REGEX pk) eqn:Hre.
  2:{ unfold Env.normalizePrivateKey. rewrite Hre. discriminate. }
  destruct (normalizePrivateKey_shape pk Hre) as [Hnorm Hsig]. rewrite Hnorm. cbn [cbind].
  unfold Env.normalizeRouterUrl.
  destruct (URL_parse _) as [u|]; [|discriminate]. cbn [cbind].
  unfold Env.normalizePermitCap.
  destruct (Env.POSITIVE_INTEGER_REGEX _) eqn:Hcap; [|discriminate]. cbn.
  intros [= <-]. cbn [Env.privateKey Env.permitCap Env.routerUrl Env.network
    Env.paymentHeader Env.modelId Env.modelName].
  destruct (positive_integer_BigInt _ Hcap) as (v & Hv & Hpos).
  assert (Hkey : SignPermit.asPrivateKey ("0x" +:+ JS.slice_from 2 pk)
                 = Normal ("0x" +:+ JS.slice_from 2 pk)).
  { unfold SignPermit.asPrivateKey. rewrite Hsig. reflexivity. }
  split; [exact Hkey|]. split; [eauto|]. split.
  - repeat split; try discriminate; try apply origin_nonempty;
      try (apply default_readTrimmed_nonempty; discriminate).
  - intros rt now_ms router calls err.
    unfold SignPermit.signPermitWithViem. cbn [routerConfig privateKey permitCap].
    rewrite Hkey. unfold SignPermit.asAddress.
    destruct (SignPermit.ADDRESS_REGEX (asset router)); [|auto].
    destruct (SignPermit.ADDRESS_REGEX (facilitatorSigner router)); [|auto].
    cbn [negb].
    destruct (SignPermit.privateKeyToAccount rt _) as [owner|e] eqn:Hacc.
    2:{ intros [= _ <-]. auto. }
    destruct (SignPermit.createWalletClient rt owner _) as [[]|e] eqn:Hwallet.
    2:{ intros [= _ <-]. do 3 right. left. eauto. }
    unfold SignPermit.fetchPermitNonce.
    destruct (SignPermit.readContract rt _ _ owner) as [n|e] eqn:Hread.
    2:{ intros [= _ <-]. do 4 right. left. eauto. }
    rewrite Hv.
    destruct (SignPermit.signTypedData rt _ _ _) as [sg|e] eqn:Hsign; [discriminate|].
    intros [= _ <-]. do 5 right. eauto.
Qed.

Lemma loaded_config_is_signable_witness :
  exists cfg,
    Env.loadX402Env Url.parse_basic Fixtures.env_static = Normal cfg
    /\ SignPermit.asPrivateKey (Env.privateKey cfg) = Normal (Env.privateKey cfg).
Proof.
  eexists. split; [vm_compute; reflexivity|].
  refine (proj1 (loaded_config_is_signable Url.parse_basic Fixtures.env_static _ _)).
  vm_compute. reflexivity.
Defined.

(* ===================================================================== *)
(** * Further properties of src/sign-permit.ts                            *)
(* ===================================================================== *)



(* ===================================================================== *)
(** * Further properties of index.ts                                      *)
(* ===================================================================== *)

Lemma of_chars_app (a b : list ascii) :
  JS.of_chars (a ++ b) = JS.of_chars a +:+ JS.of_chars b.
Proof.
  induction a as [|c a IH]; [reflexivity|].
  change (String c (JS.of_chars (a ++ b)) = String c (JS.of_chars a +:+ JS.of_chars b)).
  f_equal. exact IH.
Qed.

Lemma chars_app (a b : string) : JS.chars (a +:+ b) = JS.chars a ++ JS.chars b.
Proof.
  induction a as [|x a IH]; [reflexivity|].
  change (x :: JS.chars (a +:+ b) = x :: (JS.chars a ++ JS.chars b)).
  f_equal. exact IH.
Qed.

Lemma endsWith_slash (s : string) :
  JS.endsWith "/" s = true <-> exists stem, s = stem +:+ "/".
Proof.
  unfold JS.endsWith.
  assert (Hstem : forall stem, s = stem +:+ "/" ->
            rev (JS.chars s) = "/"%char :: rev (JS.chars stem)).
  { intros stem ->. rewrite chars_app, rev_app_distr. reflexivity. }
  destruct (rev (JS.chars s)) as [|c t] eqn:Hrev.
  - split; [discriminate|]. intros [stem Hs]. specialize (Hstem stem Hs). discriminate.
  - assert (Hs : s = JS.of_chars (rev t) +:+ String c "").
    { rewrite <- (of_chars_chars s), <- (rev_involutive (JS.chars s)), Hrev.
      cbn [rev]. apply of_chars_app. }
    change (JS.of_chars (rev (JS.chars "/"))) with "/".
    change (JS.of_chars (c :: t)) with (String c (JS.of_chars t)).
    cbn [String.prefix]. destruct (ascii_dec "/" c) as [<-|Hne].
    + rewrite prefix_empty. split; [|reflexivity]. intros _.
      exists (JS.of_chars (rev t)). exact Hs.
    + split; [discriminate|]. intros [stem Hs']. specialize (Hstem stem Hs'). congruence.
Qed.

(** X6.  The registered base URL is the router URL with [/v1] appended, one
    trailing slash of the router URL being absorbed: no [//v1] arises from a
    router URL that ends in one slash. *)
Theorem withV1Path_joins_once (origin : string) :
  exists stem,
    Index.withV1Path origin = stem +:+ "/v1"
    /\ ((origin = stem /\ JS.endsWith "/" origin = false) \/ origin = stem +:+ "/").
Proof.
  unfold Index.withV1Path. destruct (JS.endsWith "/" origin) eqn:Hends.
  - apply endsWith_slash in Hends as [stem ->]. exists stem.
    split; [|right; reflexivity]. rewrite append_assoc. reflexivity.
  - exists origin. split; [reflexivity|left; split; reflexivity].
Qed.

(** X7.  The static payment signature is read like every other variable:
    the registered headers are the payment header with the trimmed
    signature when [readTrimmed] finds one, and no headers at all when the
    variable is absent or consists of white space only (the no-break space
    included). *)
Theorem static_headers_follow_readTrimmed (env : Env.X402EnvConfig)
    (envSource : Env.EnvSource) :
  Index.staticHeaders env envSource
  = (fun sig => [(Env.paymentHeader env, sig)])
      <$> Env.readTrimmed envSource "X402_PAYMENT_SIGNATURE"
  /\ (Index.staticHeaders env envSource = None <->
      envSource !! "X402_PAYMENT_SIGNATURE" = None
      \/ exists raw, envSource !! "X402_PAYMENT_SIGNATURE" = Some raw
                     /\ forallb JS.is_whitespace (JS.chars raw) = true)
  /\ (forall hs, Index.staticHeaders env envSource = Some hs ->
        exists sig, hs = [(Env.paymentHeader env, sig)] /\ sig <> "" /\ JS.trim sig = sig).
Proof.
  unfold Index.staticHeaders, Index.staticPaymentSignature, Env.readTrimmed.
  destruct (envSource !! "X402_PAYMENT_SIGNATURE") as [raw|]; cbn [fmap option_fmap option_map].
  2:{ split; [reflexivity|]. split; [split; auto|discriminate]. }
  destruct (JS.trim raw) as [|c t] eqn:Ht.
  - split; [reflexivity|]. split; [|discriminate].
    split; [|reflexivity]. intros _. right. exists raw.
    split; [reflexivity|]. apply trim_empty_iff, Ht.
  - change (0 <? JS.str_length (String c t)) with (0 <? Z.of_nat (S (String.length t))).
    destruct (Z.ltb_spec 0 (Z.of_nat (S (String.length t)))) as [_|Hle]; [|lia].
    cbn. split; [reflexivity|]. split.
    + split; [discriminate|]. intros [|(raw' & [= <-] & Hraw)]; [discriminate|].
      apply trim_empty_iff in Hraw. congruence.
    + intros hs [= <-]. eexists. split; [reflexivity|]. split; [discriminate|].
      rewrite <- Ht. apply trim_idempotent.
Qed.

(* ===================================================================== *)
(** * Properties of the tick loop                                         *)
(* ===================================================================== *)

Section TickLoopProperties.

Variable hasOnError : bool.

Implicit Types (st : TickLoop.State) (c : TickLoop.Call) (cs : list TickLoop.Call).

#[local] Abbreviation step := (TickLoop.step hasOnError).
#[local] Abbreviation run := (TickLoop.run hasOnError).

(** Every call of [onTick] has resolved, was caught, or is the one in
    flight; [onError], when given, got one error per caught failure. *)
#[local] Abbreviation accounted st :=
  (0 <= TickLoop.count st /\ 0 <= TickLoop.caught st
   /\ TickLoop.onTickCalls st
      = TickLoop.count st + TickLoop.caught st + (if TickLoop.ticking st then 1 else 0)
   /\ Z.of_nat (length (TickLoop.onErrorCalls st))
      = (if hasOnError then TickLoop.caught st else 0)).

(** The interval the variable [timer] holds is set. *)
#[local] Abbreviation timer_is_set st :=
  (forall id, TickLoop.timer st = Some id -> id ∈ TickLoop.intervals st).

(** A loop that is running has its timer. *)
#[local] Abbreviation running_has_timer st :=
  (TickLoop.running st = true -> TickLoop.timer st <> None).

(** What a callback's calls leave alone. *)
#[local] Abbreviation same_ticks st st' :=
  (TickLoop.ticking st' = TickLoop.ticking st
   /\ TickLoop.count st' = TickLoop.count st
   /\ TickLoop.onTickCalls st' = TickLoop.onTickCalls st
   /\ TickLoop.caught st' = TickLoop.caught st
   /\ TickLoop.onErrorCalls st' = TickLoop.onErrorCalls st).



(** A callback's [start()] is the loop's [start()]: while a tick is in
    flight the two agree, and callbacks run while one is. *)
Lemma call_is_start (r : TickLoop.OnTickRun) st :
  TickLoop.ticking st = true ->
  TickLoop.call TickLoop.CallStart st = TickLoop.start hasOnError r st.
Proof.
  intros Htk. unfold TickLoop.call, TickLoop.start, TickLoop.tick.
  destruct (TickLoop.running st); [reflexivity|]. cbn. rewrite Htk. reflexivity.
Qed.




(** Without calls from callbacks, the loop runs exactly while its timer is
    set and no other interval is. *)
#[local] Abbreviation tidy st :=
  ((TickLoop.running st = true <-> TickLoop.timer st <> None)
   /\ TickLoop.intervals st = option_list (TickLoop.timer st)).








End TickLoopProperties.


(** An [onTick] that calls [stop()] before its first [await], on the tick
    that [start()] makes: [start()] sets the interval after that, so the
    loop is not running and yet its timer fires and [onTick] is called
    again.  An [onTick] that calls [stop()] and then [start()] there leaves
    two intervals set, of which [stop()] clears one. *)
Example stop_inside_first_tick :
  let stops := TickLoop.mkOnTickRun [TickLoop.CallStop] None in
  let restarts := TickLoop.mkOnTickRun [TickLoop.CallStop; TickLoop.CallStart] None in
  let quietTick := TickLoop.mkOnTickRun [] None in
  let st := TickLoop.run true TickLoop.init
              [TickLoop.Start stops; TickLoop.OnTickResolves; TickLoop.TimerFires 0 quietTick] in
  let st' := TickLoop.run true TickLoop.init [TickLoop.Start restarts; TickLoop.Stop] in
  TickLoop.running st = false /\ TickLoop.timer st = Some 0%nat
  /\ TickLoop.onTickCalls st = 2
  /\ TickLoop.running st' = false /\ TickLoop.timer st' = None
  /\ TickLoop.intervals st' = [0%nat].
Proof. vm_compute. repeat split. Qed.

(* ===================================================================== *)
(** * Properties of streamX402                                            *)
(* ===================================================================== *)

Section StreamProperties.

Context {ModelRest OptionsRest Ctx AssistantStream Fetch : Type} `{EqDecision Fetch}.
Variable streamSimpleOpenAICompletions :
  Stream.ClientCall (ModelRest := ModelRest) (OptionsRest := OptionsRest) (Context := Ctx)
  -> Completion AssistantStream.
Variable fetchImpl : Fetch.

Implicit Types (w : Index.PatcherWorld (Fetch := Fetch)).

(** While only the patcher assigns the global fetch: it is the payment-aware
    fetch exactly while streams are active, and the fetch found at the start
    otherwise. *)
#[local] Abbreviation patched g0 w :=
  (Index.consistent w
   /\ (Index.activeStreams w = 0 -> Index.globalFetch w = g0)
   /\ (Index.activeStreams w <> 0 ->
         Index.globalFetch w = fetchImpl /\ Index.originalFetch w = Some g0)).

Lemma patched_nonneg g0 w : patched g0 w -> 0 <= Index.activeStreams w.
Proof.
  intros [[Hc _] _]. rewrite Hc. unfold Index.live, Index.unreleased. lia.
Qed.

Lemma patched_acquire g0 w : patched g0 w -> patched g0 (snd (Index.acquire fetchImpl w)).
Proof.
  intros Hw. pose proof (patched_nonneg g0 w Hw) as Hn.
  destruct Hw as (Hc & Hzero & Hpos).
  split; [apply (consistent_step fetchImpl w Index.Acquire Hc)|].
  unfold Index.acquire.
  destruct (Z.eqb_spec (Index.activeStreams w) 0) as [E|E]; cbn.
  - split; [lia|]. intros _. rewrite (Hzero E). split; reflexivity.
  - split; [lia|]. intros _. apply Hpos, E.
Qed.

Lemma patched_release g0 h w : patched g0 w -> patched g0 (Index.release fetchImpl h w).
Proof.
  intros Hw. pose proof (patched_nonneg g0 w Hw) as Hn.
  destruct Hw as (Hc & Hzero & Hpos).
  destruct (decide (Index.released w !! h = Some false)) as [Hh|Hh].
  2:{ rewrite (release_not_live fetchImpl h w Hh).
      split; [exact Hc|split; assumption]. }
  split; [apply (consistent_step fetchImpl w (Index.Release h) Hc)|].
  destruct (live_has_original h w Hc Hh) as [orig Ho].
  assert (Hne : Index.activeStreams w <> 0).
  { intros E. apply Hc in E. congruence. }
  destruct (Hpos Hne) as [Hg Ho']. rewrite Ho' in Ho. injection Ho as <-.
  rewrite (release_live fetchImpl h w g0 Hh Ho').
  destruct (Z.eqb_spec (Index.activeStreams w - 1) 0) as [E|E]; cbn.
  - split; [|intros; lia]. intros _. rewrite bool_decide_eq_true_2 by exact Hg. reflexivity.
  - split; [intros; lia|]. intros _. split; [exact Hg|reflexivity].
Qed.

Lemma acquire_is_live w :
  Index.released (snd (Index.acquire fetchImpl w)) !! fst (Index.acquire fetchImpl w)
  = Some false.
Proof.
  unfold Index.acquire. destruct (Index.activeStreams w =? 0); cbn;
    rewrite lookup_app_r by lia; rewrite Nat.sub_diag; reflexivity.
Qed.

Lemma patched_run g0 events : forall w,
  patched g0 w ->
  patched g0 (Stream.run streamSimpleOpenAICompletions fetchImpl w events).
Proof.
  induction events as [|e events IH]; intros w Hw; [exact Hw|].
  unfold Stream.run. cbn [fold_left]. apply IH.
  destruct e as [model context options|h]; cbn [Stream.step].
  - unfold Stream.streamX402.
    pose proof (patched_acquire g0 w Hw) as Hw1.
    destruct (Index.acquire fetchImpl w) as [h w1]. cbn [snd] in Hw1.
    destruct (streamSimpleOpenAICompletions _); cbn [snd]; [exact Hw1|].
    apply patched_release, Hw1.
  - apply patched_release, Hw.
Qed.

(** X11.  Under any sequence of [streamX402] calls and streams settling,
    while nobody else assigns the global fetch: the patcher's count is the
    number of streams not yet settled; the global fetch is the payment-aware
    one exactly while the count is not 0 and the fetch found at first
    otherwise.  A call whose client returns a stream raises the count by one
    and leaves its release pending; a call whose client throws rethrows the
    same error and leaves the count, the global fetch and the captured
    original as they were. *)
Theorem stream_patch_balance (g0 : Fetch) (events : list Stream.Event) :
  let w := Stream.run streamSimpleOpenAICompletions fetchImpl (Index.patcher_init g0) events in
  Index.activeStreams w = Index.live w
  /\ (Index.activeStreams w = 0 ->
        Index.globalFetch w = g0 /\ Index.originalFetch w = None)
  /\ (Index.activeStreams w <> 0 ->
        Index.globalFetch w = fetchImpl /\ Index.originalFetch w = Some g0)
  /\ forall model context options,
       match Stream.streamX402 streamSimpleOpenAICompletions fetchImpl
               model context options w with
       | (Normal (stream, releaseFetch), w') =>
           streamSimpleOpenAICompletions (Stream.clientCall model context options)
             = Normal stream
           /\ Index.activeStreams w' = Index.activeStreams w + 1
           /\ Index.globalFetch w' = fetchImpl
           /\ Index.released w' !! releaseFetch = Some false
       | (Throw error, w') =>
           streamSimpleOpenAICompletions (Stream.clientCall model context options)
             = Throw error
           /\ Index.activeStreams w' = Index.activeStreams w
           /\ Index.globalFetch w' = Index.globalFetch w
           /\ Index.originalFetch w' = Index.originalFetch w
           /\ Index.live w' = Index.live w
       end.
Proof.
  intros w.
  assert (Hw : patched g0 w).
  { apply patched_run. split; [apply consistent_init|]. cbn. split; [reflexivity|lia]. }
  clearbody w. pose proof (patched_nonneg g0 w Hw) as Hn.
  pose proof Hw as (Hc & Hzero & Hpos).
  split; [apply Hc|]. split; [intros E; split; [apply Hzero, E|apply Hc, E]|].
  split; [exact Hpos|]. intros model context options.
  unfold Stream.streamX402.
  pose proof (patched_acquire g0 w Hw) as Hw1.
  pose proof (acquire_is_live w) as Hlive.
  assert (Hcount : Index.activeStreams (snd (Index.acquire fetchImpl w))
                   = Index.activeStreams w + 1).
  { unfold Index.acquire. destruct (Index.activeStreams w =? 0); reflexivity. }
  destruct (Index.acquire fetchImpl w) as [h w1]. cbn [fst snd] in *.
  destruct Hw1 as (Hc1 & _ & Hpos1).
  assert (Hne1 : Index.activeStreams w1 <> 0) by lia.
  destruct (Hpos1 Hne1) as [Hg1 Ho1].
  destruct (streamSimpleOpenAICompletions _) as [stream|error].
  - repeat split; assumption.
  - split; [reflexivity|].
    assert (Hc2 : Index.consistent (Index.release fetchImpl h w1))
      by apply (consistent_step fetchImpl w1 (Index.Release h) Hc1).
    destruct Hc2 as [Hlive2 _]. destruct Hc as [Hlive0 Horig0].
    revert Hlive2. rewrite (release_live fetchImpl h w1 g0 Hlive Ho1).
    unfold Index.live in *.
    destruct (Z.eqb_spec (Index.activeStreams w1 - 1) 0) as [E|E]; cbn; intros Hlive2.
    + assert (E0 : Index.activeStreams w = 0) by lia.
      rewrite bool_decide_eq_true_2 by exact Hg1.
      repeat split; [lia|symmetry; apply Hzero, E0|symmetry; apply Horig0, E0|lia].
    + assert (E0 : Index.activeStreams w <> 0) by lia.
      destruct (Hpos E0) as [Hg Ho].
      repeat split; [lia|congruence|congruence|lia].
Qed.

End StreamProperties.

Lemma setProperty_get {V : Type} (key : string) (v : V) (obj : list (string * V)) :
  Stream.getProperty key (Stream.setProperty key v obj) = Some v.
Proof.
  unfold Stream.getProperty, Stream.setProperty.
  induction obj as [|[k old] obj IH]; cbn.
  - rewrite String.eqb_refl. reflexivity.
  - destruct (String.eqb k key) eqn:E; cbn.
    + rewrite E. reflexivity.
    + destruct (existsb _ obj) eqn:Ex; cbn; rewrite E; exact IH.
Qed.

Lemma setProperty_get_other {V : Type} (key other : string) (v : V)
    (obj : list (string * V)) :
  other <> key ->
  Stream.getProperty other (Stream.setProperty key v obj) = Stream.getProperty other obj.
Proof.
  intros Hne. unfold Stream.getProperty, Stream.setProperty.
  assert (Hmap : forall obj : list (string * V),
    List.find (fun '(k, _) => String.eqb k other)
      (map (fun '(k, old) => if String.eqb k key then (k, v) else (k, old)) obj)
    = List.find (fun '(k, _) => String.eqb k other) obj).
  { clear obj. induction obj as [|[k old] obj IH]; cbn; [reflexivity|].
    destruct (String.eqb_spec k key) as [->|Hk]; cbn.
    - destruct (String.eqb_spec key other) as [->|_]; [contradiction|exact IH].
    - destruct (String.eqb k other); [reflexivity|exact IH]. }
  destruct (existsb _ obj); [rewrite Hmap; reflexivity|].
  induction obj as [|[k x] obj IH]; cbn.
  - destruct (String.eqb_spec key other) as [->|_]; [contradiction|reflexivity].
  - destruct (String.eqb k other); [reflexivity|exact IH].
Qed.

(** X12.  The call [streamX402] makes to the OpenAI client: the model's
    [api] is [openai-completions] and the rest of the model is passed on; the
    headers have [Authorization] set to null, whatever the caller gave for
    it, and every other header as the caller gave it; the API key is the
    caller's when one is given, also an empty one, and the placeholder
    otherwise. *)
Theorem client_call_clears_authorization {ModelRest OptionsRest Ctx : Type}
    (model : Stream.Model (ModelRest := ModelRest)) (context : Ctx)
    (options : option (Stream.SimpleStreamOptions (OptionsRest := OptionsRest))) :
  let call := Stream.clientCall model context options in
  let given := default [] (options ≫= Stream.headers) in
  Stream.api (Stream.call_model call) = "openai-completions"
  /\ Stream.model_rest (Stream.call_model call) = Stream.model_rest model
  /\ Stream.getProperty "Authorization" (Stream.call_headers call) = Some None
  /\ (forall name, name <> "Authorization" ->
        Stream.getProperty name (Stream.call_headers call) = Stream.getProperty name given)
  /\ (length given <= length (Stream.call_headers call) <= length given + 1)%nat
  /\ (forall key, options ≫= Stream.apiKey = Some key -> Stream.call_apiKey call = key)
  /\ (options ≫= Stream.apiKey = None -> Stream.call_apiKey call = "x402-placeholder").
Proof.
  cbv zeta. unfold Stream.clientCall. cbn.
  split; [reflexivity|]. split; [reflexivity|].
  split; [apply setProperty_get|].
  split; [intros name Hne; apply setProperty_get_other, Hne|].
  split.
  - unfold Stream.setProperty. destruct (existsb _ _).
    + rewrite length_map. lia.
    + rewrite length_app. cbn. lia.
  - split; [intros key ->; reflexivity|intros ->; reflexivity].
Qed.

(* ===================================================================== *)
(** * More on the chain id of the signing domain                          *)
(* ===================================================================== *)

(** A value of [2^1024] or more is beyond every double. *)
Lemma round_to_double_overflow v :
  2 ^ 1024 <= v -> JS.round_to_double v = JS.Infinite false.
Proof.
  intros Hv. unfold JS.round_to_double.
  assert (H53 : JS.two53 < 2 ^ 1024) by (vm_compute; reflexivity).
  assert (Hpos : 0 < v) by lia.
  rewrite Z.abs_eq by lia.
  destruct (Z.ltb_spec v JS.two53) as [Hlt|_]; [lia|].
  pose proof (Z.log2_spec v Hpos) as [Hlo _].
  assert (Hlog : 1024 <= Z.log2 v).
  { rewrite <- (Z.log2_pow2 1024) by lia. apply Z.log2_le_mono, Hv. }
  set (s := Z.log2 v - 52) in *.
  assert (Hs : 0 <= s) by (unfold s; lia).
  assert (Hsplit : 2 ^ Z.log2 v = 2 ^ 52 * 2 ^ s).
  { rewrite <- Z.pow_add_r by lia. f_equal. unfold s. lia. }
  assert (Hs_pos : 0 < 2 ^ s) by (apply Z.pow_pos_nonneg; lia).
  assert (Hq : 2 ^ 52 <= Z.shiftr v s).
  { rewrite Z.shiftr_div_pow2 by exact Hs.
    apply Z.div_le_lower_bound; [exact Hs_pos|]. rewrite Z.mul_comm, <- Hsplit. exact Hlo. }
  set (q := Z.shiftr v s) in *.
  set (r := v - Z.shiftl q s).
  set (half := Z.shiftl 1 (s - 1)).
  set (q' := if r <? half then q
             else if half <? r then q + 1 else if Z.even q then q else q + 1).
  assert (Hq' : q <= q').
  { unfold q'. destruct (r <? half); [lia|].
    destruct (half <? r); [lia|]. destruct (Z.even q); lia. }
  assert (Hm : 2 ^ 1024 <= Z.shiftl q' s).
  { rewrite Z.shiftl_mul_pow2 by exact Hs.
    transitivity (2 ^ Z.log2 v); [apply Z.pow_le_mono_r; lia|].
    rewrite Hsplit. apply Z.mul_le_mono_nonneg_r; lia. }
  cbv zeta. fold q r half q'.
  destruct (Z.leb_spec (2 ^ 1024) (Z.shiftl q' s)) as [_|Hbad]; [|lia].
  destruct (Z.ltb_spec v 0); [lia|reflexivity].
Qed.

Lemma drop_while_app (p : ascii -> bool) (ws l : list ascii) :
  forallb p ws = true -> JS.drop_while p (ws ++ l) = JS.drop_while p l.
Proof.
  induction ws as [|c ws IH]; [reflexivity|]. cbn [forallb app JS.drop_while].
  intros H. apply andb_prop in H as [-> H]. apply IH, H.
Qed.

Lemma take_while_app (p : ascii -> bool) (l r : list ascii) :
  forallb p l = true -> JS.take_while p (l ++ r) = l ++ JS.take_while p r.
Proof.
  induction l as [|c l IH]; [reflexivity|]. cbn [forallb app JS.take_while].
  intros H. apply andb_prop in H as [-> H]. rewrite IH by exact H. reflexivity.
Qed.

Lemma hd_take_while (p : ascii -> bool) (rest : list ascii) :
  List.hd "x"%char (JS.take_while p rest) = List.hd "x"%char rest
  \/ List.hd "x"%char (JS.take_while p rest) = "x"%char.
Proof. destruct rest as [|c rest]; cbn; [auto|]. destruct (p c); cbn; auto. Qed.

Lemma whitespace_not_colon (ws : list ascii) :
  forallb JS.is_whitespace ws = true ->
  forallb (fun c => negb (Ascii.eqb c ":")) ws = true.
Proof.
  rewrite !forallb_forall. intros H c Hc. specialize (H c Hc).
  destruct (Ascii.eqb_spec c ":") as [->|_]; [vm_compute in H; discriminate|reflexivity].
Qed.

Lemma digits_not_colon (ds : list ascii) :
  forallb JS.is_digit ds = true ->
  forallb (fun c => negb (Ascii.eqb c ":")) ds = true.
Proof.
  rewrite !forallb_forall. intros H c Hc. specialize (H c Hc).
  destruct (digit_not_special c H) as (_ & _ & _ & Hcolon).
  apply Ascii.eqb_neq in Hcolon. rewrite Hcolon. reflexivity.
Qed.

Section SignedDigits.

(** An optional sign: [Some true] is [-], [Some false] is [+]. *)
Variable sign : option bool.

#[local] Abbreviation sign_chars :=
  (match sign with Some true => ["-"%char] | Some false => ["+"%char] | None => [] end).
#[local] Abbreviation negative :=
  (match sign with Some true => true | _ => false end).

(** [parseInt] of white space, an optional sign and digits: the digits'
    value rounded to a double, with the sign. *)
Lemma parseInt10_shape (ws ds rest : list ascii) :
  forallb JS.is_whitespace ws = true ->
  ds <> [] -> forallb JS.is_digit ds = true ->
  JS.is_digit (List.hd "x"%char rest) = false ->
  JS.parseInt10 (JS.of_chars (ws ++ sign_chars ++ ds ++ rest))
  = match JS.round_to_double (JS.digits_value 0 ds) with
    | JS.Int m => JS.Int (if negative then - m else m)
    | JS.Infinite _ => JS.Infinite negative
    | JS.NaN => JS.NaN
    end.
Proof.
  intros Hws Hne Hds Hrest. unfold JS.parseInt10.
  rewrite chars_of_chars, drop_while_app by exact Hws.
  destruct ds as [|d ds]; [contradiction|].
  pose proof Hds as Hds'. cbn [forallb] in Hds'. apply andb_prop in Hds' as [Hd _].
  destruct (digit_not_special d Hd) as (Hw & Hm & Hp & _).
  destruct sign as [[]|]; cbn [app JS.drop_while].
  - change (JS.is_whitespace "-") with false. cbv iota.
    change (d :: ds ++ rest) with ((d :: ds) ++ rest).
    rewrite take_while_digits by assumption. reflexivity.
  - change (JS.is_whitespace "+") with false. cbv iota.
    change (d :: ds ++ rest) with ((d :: ds) ++ rest).
    rewrite take_while_digits by assumption. reflexivity.
  - rewrite Hw, (no_sign d (ds ++ rest) Hm Hp).
    change (d :: ds ++ rest) with ((d :: ds) ++ rest).
    rewrite take_while_digits by assumption. reflexivity.
Qed.

(** [parseInt] of white space and an optional sign with no digit after
    them. *)
Lemma parseInt10_no_digit (ws rest : list ascii) :
  forallb JS.is_whitespace ws = true ->
  JS.is_digit (List.hd "x"%char rest) = false ->
  (sign = None ->
     JS.is_whitespace (List.hd "x"%char rest) = false
     /\ List.hd "x"%char rest <> "-"%char /\ List.hd "x"%char rest <> "+"%char) ->
  JS.parseInt10 (JS.of_chars (ws ++ sign_chars ++ rest)) = JS.NaN.
Proof.
  intros Hws Hd Hnone. unfold JS.parseInt10.
  rewrite chars_of_chars, drop_while_app by exact Hws.
  destruct sign as [[]|]; cbn [app JS.drop_while].
  - change (JS.is_whitespace "-") with false. cbv iota.
    destruct rest as [|c rest]; [reflexivity|]. cbn [List.hd JS.take_while] in *.
    rewrite Hd. reflexivity.
  - change (JS.is_whitespace "+") with false. cbv iota.
    destruct rest as [|c rest]; [reflexivity|]. cbn [List.hd JS.take_while] in *.
    rewrite Hd. reflexivity.
  - destruct (Hnone eq_refl) as (Hw & Hm & Hp).
    destruct rest as [|c rest]; [reflexivity|]. cbn [List.hd] in *.
    cbn [JS.drop_while]. rewrite Hw, (no_sign c rest Hm Hp).
    cbn [JS.take_while]. rewrite Hd. reflexivity.
Qed.

Lemma sign_not_colon :
  forallb (fun c => negb (Ascii.eqb c ":")) sign_chars = true.
Proof. destruct sign as [[]|]; reflexivity. Qed.

End SignedDigits.

(** X14.  The chain and the chain id of the signing domain, case by case.
    The three supported networks resolve to their chains and ids.  A network
    named like a member of [Object.prototype] resolves to that member, which
    has no id, and the chain id is undefined.  Every other network resolves
    to Base.  The chain id is read off the second [:]-separated component of
    the network string by [parseInt]: white space, an optional sign, then
    digits, whatever follows them.  With digits it is their value rounded to
    a double, with the sign: the exact value below [2^53], and the resolved
    chain's own id when the value overflows, as it does from [2^1024] on.
    Without a [:], or without digits in that place, it is the resolved
    chain's own id. *)
Theorem chain_resolution_cases :
  (SignPermit.resolveChain "eip155:1" = SignPermit.IsChain SignPermit.mainnet
   /\ SignPermit.resolveChain "eip155:8453" = SignPermit.IsChain SignPermit.base
   /\ SignPermit.resolveChain "eip155:84532" = SignPermit.IsChain SignPermit.baseSepolia)
  /\ (forall network chain,
        SignPermit.CHAINS !! network = Some chain ->
        SignPermit.resolveChainId network (SignPermit.id (SignPermit.resolveChain network))
        = Some (JS.Int (SignPermit.chain_id chain)))
  /\ (forall network,
        network ∈ SignPermit.OBJECT_PROTOTYPE_KEYS ->
        SignPermit.resolveChain network = SignPermit.Inherited network
        /\ SignPermit.resolveChainId network (SignPermit.id (SignPermit.resolveChain network))
           = None)
  /\ (forall network,
        network ∉ ["eip155:1"; "eip155:8453"; "eip155:84532"] ->
        network ∉ SignPermit.OBJECT_PROTOTYPE_KEYS ->
        SignPermit.resolveChain network = SignPermit.IsChain SignPermit.base)
  /\ (forall (network : string) fallback,
        JS.all_chars (fun c => negb (Ascii.eqb c ":")) network = true ->
        SignPermit.resolveChainId network fallback = JS.Int <$> fallback)
  /\ (forall pre ws (sign : option bool) ds rest fallback,
        forallb (fun c => negb (Ascii.eqb c ":")) pre = true ->
        forallb JS.is_whitespace ws = true ->
        ds <> [] -> forallb JS.is_digit ds = true ->
        JS.is_digit (List.hd "x"%char rest) = false ->
        let sign_chars :=
          match sign with Some true => ["-"%char] | Some false => ["+"%char] | None => [] end in
        let signed (m : Z) := match sign with Some true => - m | _ => m end in
        let chainId :=
          SignPermit.resolveChainId
            (JS.of_chars (pre ++ ":"%char :: ws ++ sign_chars ++ ds ++ rest)) fallback in
        chainId = match JS.round_to_double (JS.digits_value 0 ds) with
                  | JS.Int m => Some (JS.Int (signed m))
                  | _ => JS.Int <$> fallback
                  end
        /\ (JS.digits_value 0 ds < JS.two53 ->
              chainId = Some (JS.Int (signed (JS.digits_value 0 ds))))
        /\ (2 ^ 1024 <= JS.digits_value 0 ds -> chainId = JS.Int <$> fallback))
  /\ (forall pre ws (sign : option bool) rest fallback,
        forallb (fun c => negb (Ascii.eqb c ":")) pre = true ->
        forallb JS.is_whitespace ws = true ->
        JS.is_digit (List.hd "x"%char rest) = false ->
        (sign = None ->
           JS.is_whitespace (List.hd "x"%char rest) = false
           /\ List.hd "x"%char rest <> "-"%char /\ List.hd "x"%char rest <> "+"%char) ->
        let sign_chars :=
          match sign with Some true => ["-"%char] | Some false => ["+"%char] | None => [] end in
        SignPermit.resolveChainId
          (JS.of_chars (pre ++ ":"%char :: ws ++ sign_chars ++ rest)) fallback
        = JS.Int <$> fallback).
Proof.
  split; [repeat split; vm_compute; reflexivity|].
  split; [|split; [|split; [|split; [|split]]]].
  - intros network chain Hchain.
    assert (Hn : network ∈ ["eip155:1"; "eip155:8453"; "eip155:84532"]).
    { destruct (decide (network = "eip155:1")) as [->|H1]; [set_solver|].
      destruct (decide (network = "eip155:8453")) as [->|H2]; [set_solver|].
      destruct (decide (network = "eip155:84532")) as [->|H3]; [set_solver|].
      unfold SignPermit.CHAINS in Hchain.
      rewrite !lookup_insert_ne, lookup_singleton_ne in Hchain by congruence.
      discriminate. }
    rewrite !elem_of_cons in Hn.
    destruct Hn as [->|[->|[->|Hn]]]; [| | |apply elem_of_nil in Hn; contradiction];
      vm_compute in Hchain; injection Hchain as <-; vm_compute; reflexivity.
  - intros network Hn. unfold SignPermit.OBJECT_PROTOTYPE_KEYS in Hn.
    rewrite !elem_of_cons in Hn.
    repeat (destruct Hn as [->|Hn]; [split; vm_compute; reflexivity|]).
    apply elem_of_nil in Hn. contradiction.
  - intros network Hn Hproto. unfold SignPermit.resolveChain, SignPermit.CHAINS.
    rewrite !lookup_insert_ne, lookup_singleton_ne;
      [|intros <-; apply Hn; set_solver ..].
    rewrite bool_decide_eq_false_2 by exact Hproto. reflexivity.
  - intros network fallback Hn. unfold SignPermit.resolveChainId, JS.split.
    rewrite split_chars_single by exact Hn. reflexivity.
  - intros pre ws sign ds rest fallback Hpre Hws Hne Hds Hrest sign_chars signed chainId.
    assert (Hid : chainId = match JS.round_to_double (JS.digits_value 0 ds) with
                            | JS.Int m => Some (JS.Int (signed m))
                            | _ => JS.Int <$> fallback
                            end).
    { subst chainId. unfold SignPermit.resolveChainId, JS.split.
      rewrite chars_of_chars, split_chars_second by exact Hpre.
      rewrite (app_assoc ws), (app_assoc (ws ++ sign_chars)).
      rewrite take_while_app.
      2:{ rewrite !forallb_app, (whitespace_not_colon ws Hws), (digits_not_colon ds Hds).
          subst sign_chars. rewrite sign_not_colon. reflexivity. }
      rewrite <- !app_assoc. cbn [default from_option id]. subst sign_chars.
      rewrite parseInt10_shape; auto using hd_take_while_not_digit.
      subst signed.
      destruct (JS.round_to_double _) as [m| |]; destruct sign as [[]|]; reflexivity. }
    split; [exact Hid|]. split.
    + intros Hv. rewrite Hid, round_to_double_exact; [reflexivity|].
      split; [apply digits_value_nonneg; [lia|exact Hds]|exact Hv].
    + intros Hv. rewrite Hid, (round_to_double_overflow _ Hv). reflexivity.
  - intros pre ws sign rest fallback Hpre Hws Hd Hnone sign_chars.
    unfold SignPermit.resolveChainId, JS.split.
    rewrite chars_of_chars, split_chars_second by exact Hpre.
    rewrite (app_assoc ws), take_while_app.
    2:{ rewrite forallb_app, (whitespace_not_colon ws Hws).
        subst sign_chars. apply sign_not_colon. }
    rewrite <- app_assoc. cbn [default from_option id]. subst sign_chars.
    rewrite parseInt10_no_digit; [reflexivity|exact Hws|..].
    + apply hd_take_while_not_digit, Hd.
    + intros Hs. destruct (Hnone Hs) as (Hw & Hm & Hp).
      destruct (hd_take_while (fun c => negb (Ascii.eqb c ":")) rest) as [-> | ->];
        [auto|]. split; [reflexivity|]. split; discriminate.
Qed.
